(** * rope.base.taskhandle: cooperative cancellation and progress reporting

    A shallow embedding of [rope/base/taskhandle.py].  Python objects live in
    a heap addressed by references, so that the back-reference
    [JobSet.handle] and the list [TaskHandle.job_sets] alias the same
    objects, as they do in the source.  Every method is a computation in a
    state-and-exception monad over that heap. *)

From stdpp Require Import base tactics option list strings.
From Stdlib Require Import ZArith Lia.

Local Open Scope Z_scope.

(** ** Objects *)

(** A reference is the address of an object in the heap. *)
Abbreviation ref := nat.

(** Observers are zero-argument callables supplied by the client.  The model
    gives each one an identity, recorded in a call log whenever it is
    invoked, and a list of further observers that it registers on the
    notifying handle when it runs (the one effect on the handle that the
    source anticipates with [list(self.observers)]).  Observers that raise
    or that call back into the handle are the subject of [AnyObserver]
    below, where the body of an observer is any computation. *)
#[local] Unset Elimination Schemes.
Inductive Observer : Type :=
  | Obs (obs_id : nat) (obs_registers : list Observer).
#[local] Set Elimination Schemes.

Definition obs_id (o : Observer) : nat :=
  match o with Obs i _ => i end.

Definition obs_registers (o : Observer) : list Observer :=
  match o with Obs _ os => os end.

(** Fields of a [TaskHandle] instance, as assigned by [__init__]. *)
Record TaskHandleObj : Type := mkTaskHandle {
  th_name : string;
  interrupts : bool;
  stopped : bool;
  job_sets : list ref;
  observers : list Observer
}.

(** Fields of a [JobSet] instance, as assigned by [__init__].  [count] and
    [job_name] may hold [None]. *)
Record JobSetObj : Type := mkJobSet {
  handle : ref;
  name : string;
  count : option Z;
  done : Z;
  job_name : option string
}.

(** The four concrete classes of the module. *)
Inductive Obj : Type :=
  | OTaskHandle (th : TaskHandleObj)
  | OJobSet (js : JobSetObj)
  | ONullTaskHandle
  | ONullJobSet.

(** ** The world: heap and observer call log *)

Record World : Type := mkWorld {
  heap : list Obj;
  calls : list nat
}.

Definition empty_world : World := mkWorld [] [].

(** ** Exceptions and the method monad *)

Inductive exn : Type :=
  | InterruptedTaskError
  | TypeError
  | AttributeError.

Inductive outcome (A : Type) : Type :=
  | Return (a : A)
  | Raise (e : exn).
Arguments Return {A} a.
Arguments Raise {A} e.

(** A method call maps the world before to its outcome and the world after;
    a raised exception keeps the mutations made before it. *)
Definition M (A : Type) : Type := World → outcome A * World.

#[export] Instance M_ret : MRet M := λ A a w, (Return a, w).

#[export] Instance M_bind : MBind M := λ A B f m w,
  match m w with
  | (Return a, w') => f a w'
  | (Raise e, w') => (Raise e, w')
  end.

Definition raise {A} (e : exn) : M A := λ w, (Raise e, w).

Definition result {A} (m : M A) (w : World) : outcome A := (m w).1.
Definition after {A} (m : M A) (w : World) : World := (m w).2.

(** Allocation of a new object: the next free address. *)
Definition alloc (o : Obj) : M ref := λ w,
  (Return (length (heap w)), mkWorld (heap w ++ [o]) (calls w)).

(** Read and write of an object's state through a reference.  A reference
    held by a Python program always points to a live object; the failure
    branch keeps the definitions total. *)
Definition deref (r : ref) : M Obj := λ w,
  match heap w !! r with
  | Some o => (Return o, w)
  | None => (Raise AttributeError, w)
  end.

Definition put (r : ref) (o : Obj) (w : World) : World :=
  mkWorld (<[r := o]> (heap w)) (calls w).

Definition store (r : ref) (o : Obj) : M unit := λ w, (Return tt, put r o w).

(** Record one observer invocation. *)
Definition log_call (i : nat) : M unit := λ w,
  (Return tt, mkWorld (heap w) (calls w ++ [i])).

(** [for x in xs: body(x)] *)
Fixpoint for_each {A} (xs : list A) (body : A → M unit) : M unit :=
  match xs with
  | [] => mret tt
  | x :: xs' => body x ;; for_each xs' body
  end.

(** [self] seen as an instance of one class. *)
Definition self_TaskHandle (self : ref) : M TaskHandleObj :=
  o ← deref self;
  match o with
  | OTaskHandle th => mret th
  | _ => raise AttributeError
  end.

Definition self_JobSet (self : ref) : M JobSetObj :=
  o ← deref self;
  match o with
  | OJobSet js => mret js
  | _ => raise AttributeError
  end.

(** Field updates, written [self.f = v] in the source. *)
Definition set_stopped (b : bool) (th : TaskHandleObj) : TaskHandleObj :=
  mkTaskHandle (th_name th) (interrupts th) b (job_sets th) (observers th).

Definition set_job_sets (l : list ref) (th : TaskHandleObj) : TaskHandleObj :=
  mkTaskHandle (th_name th) (interrupts th) (stopped th) l (observers th).

Definition set_observers (l : list Observer) (th : TaskHandleObj) : TaskHandleObj :=
  mkTaskHandle (th_name th) (interrupts th) (stopped th) (job_sets th) l.

Definition set_count (c : option Z) (js : JobSetObj) : JobSetObj :=
  mkJobSet (handle js) (name js) c (done js) (job_name js).

Definition set_done (d : Z) (js : JobSetObj) : JobSetObj :=
  mkJobSet (handle js) (name js) (count js) d (job_name js).

Definition set_job_name (n : option string) (js : JobSetObj) : JobSetObj :=
  mkJobSet (handle js) (name js) (count js) (done js) n.

(** Assignment to attributes of [self]: [self.f = v], [self.f += v] and
    [self.f.append(v)] update the object in place. *)
Definition setattr_TaskHandle (self : ref)
    (f : TaskHandleObj → TaskHandleObj) : M unit :=
  th ← self_TaskHandle self;
  store self (OTaskHandle (f th)).

Definition setattr_JobSet (self : ref) (f : JobSetObj → JobSetObj) : M unit :=
  js ← self_JobSet self;
  store self (OJobSet (f js)).

(** ** Constructors: the [__init__] methods *)

Module Construct.

(** [TaskHandle(name, interrupts)] *)
Definition TaskHandle (name : string) (interrupts : bool) : M ref :=
  alloc (OTaskHandle (mkTaskHandle name interrupts false [] [])).

(** [JobSet(handle, name, count)] *)
Definition JobSet (handle : ref) (name : string) (count : option Z) : M ref :=
  alloc (OJobSet (mkJobSet handle name count 0 None)).

(** [NullTaskHandle()] *)
Definition NullTaskHandle : M ref := alloc ONullTaskHandle.

(** [NullJobSet()] *)
Definition NullJobSet : M ref := alloc ONullJobSet.

End Construct.

(** ** class TaskHandle *)

Module TaskHandle.

Definition add_observer (self : ref) (observer : Observer) : M unit :=
  setattr_TaskHandle self
    (λ th, set_observers (observers th ++ [observer]) th).

(** The call [observer()] made by a handle. *)
Definition call_observer (self : ref) (observer : Observer) : M unit :=
  log_call (obs_id observer) ;;
  for_each (obs_registers observer) (add_observer self).

Definition _inform_observers (self : ref) : M unit :=
  th ← self_TaskHandle self;
  for_each (observers th) (call_observer self).

Definition stop (self : ref) : M unit :=
  th ← self_TaskHandle self;
  if interrupts th then
    setattr_TaskHandle self (set_stopped true) ;;
    _inform_observers self
  else mret tt.

Definition current_jobset (self : ref) : M (option ref) :=
  th ← self_TaskHandle self;
  mret (last (job_sets th)).

Definition is_stopped (self : ref) : M bool :=
  th ← self_TaskHandle self;
  mret (stopped th).

Definition get_jobsets (self : ref) : M (list ref) :=
  th ← self_TaskHandle self;
  mret (job_sets th).

Definition create_jobset (self : ref) (name : string) (count : option Z)
  : M ref :=
  result ← Construct.JobSet self name count;
  setattr_TaskHandle self (λ th, set_job_sets (job_sets th ++ [result]) th) ;;
  _inform_observers self ;;
  mret result.

End TaskHandle.

(** ** class NullTaskHandle *)

Module NullTaskHandle.

Definition is_stopped (self : ref) : M bool := mret false.

Definition stop (self : ref) : M unit := mret tt.

Definition create_jobset (self : ref) (name : string) (count : option Z)
  : M ref :=
  Construct.NullJobSet.

Definition get_jobsets (self : ref) : M (list ref) := mret [].

Definition add_observer (self : ref) (observer : Observer) : M unit :=
  mret tt.

Definition current_jobset (self : ref) : M (option ref) := mret None.

(** Inherited from [BaseTaskHandle], whose body is [pass]. *)
Definition _inform_observers (self : ref) : M unit := mret tt.

End NullTaskHandle.

(** ** class NullJobSet *)

Module NullJobSet.

Definition started_job (self : ref) (name : string) : M unit := mret tt.

Definition finished_job (self : ref) : M unit := mret tt.

Definition check_status (self : ref) : M unit := mret tt.

Definition get_active_job_name (self : ref) : M (option string) := mret None.

Definition get_percent_done (self : ref) : M (option Z) := mret None.

Definition get_name (self : ref) : M (option string) := mret None.

Definition increment (self : ref) : M unit := mret tt.

End NullJobSet.

(** ** Method resolution on the class of the receiver

    A call [r.method()] runs the method of the class of the object that [r]
    refers to, and raises [AttributeError] when that class has none. *)

Definition virtual {A} (r : ref)
    (on_TaskHandle on_NullTaskHandle on_JobSet on_NullJobSet : M A) : M A :=
  o ← deref r;
  match o with
  | OTaskHandle _ => on_TaskHandle
  | ONullTaskHandle => on_NullTaskHandle
  | OJobSet _ => on_JobSet
  | ONullJobSet => on_NullJobSet
  end.

Definition no_method {A} : M A := raise AttributeError.

(** [self.handle.is_stopped()] and [self.handle._inform_observers()] as
    [JobSet] calls them, on a handle of either class. *)
Module Dispatch.

Definition is_stopped (self : ref) : M bool :=
  virtual self (TaskHandle.is_stopped self) (NullTaskHandle.is_stopped self)
    no_method no_method.

Definition _inform_observers (self : ref) : M unit :=
  virtual self (TaskHandle._inform_observers self)
    (NullTaskHandle._inform_observers self) no_method no_method.

End Dispatch.

(** ** class JobSet *)

Module JobSet.

Definition check_status (self : ref) : M unit :=
  js ← self_JobSet self;
  b ← Dispatch.is_stopped (handle js);
  if b : bool then raise InterruptedTaskError else mret tt.

Definition started_job (self : ref) (name : string) : M unit :=
  check_status self ;;
  setattr_JobSet self (set_job_name (Some name)) ;;
  js ← self_JobSet self;
  Dispatch._inform_observers (handle js).

Definition finished_job (self : ref) : M unit :=
  check_status self ;;
  setattr_JobSet self (λ js, set_done (done js + 1) js) ;;
  js ← self_JobSet self;
  Dispatch._inform_observers (handle js) ;;
  setattr_JobSet self (set_job_name None).

Definition get_active_job_name (self : ref) : M (option string) :=
  js ← self_JobSet self;
  mret (job_name js).

Definition get_percent_done (self : ref) : M (option Z) :=
  js ← self_JobSet self;
  match count js with
  | Some c =>
      if 0 <? c then
        let percent := done js * 100 / c in
        mret (Some (Z.min percent 100))
      else mret None
  | None => mret None
  end.

Definition get_name (self : ref) : M string :=
  js ← self_JobSet self;
  mret (name js).

(** [self.count += 1]: adding to [None] raises [TypeError]. *)
Definition increment (self : ref) : M unit :=
  js ← self_JobSet self;
  match count js with
  | Some c => setattr_JobSet self (set_count (Some (c + 1)))
  | None => raise TypeError
  end.

End JobSet.

(** ** Client programs

    A client holds references and calls the public methods one after the
    other; a call that raises leaves the client free to go on.  Each call is
    resolved on the class of the object it is made on. *)

Inductive Op : Type :=
  | NewTaskHandle (name : string) (interrupts : bool)
  | NewNullTaskHandle
  | NewJobSet (handle : ref) (name : string) (count : option Z)
  | NewNullJobSet
  | Stop (r : ref)
  | CurrentJobset (r : ref)
  | AddObserver (r : ref) (observer : Observer)
  | IsStopped (r : ref)
  | GetJobsets (r : ref)
  | CreateJobset (r : ref) (name : string) (count : option Z)
  | StartedJob (r : ref) (name : string)
  | FinishedJob (r : ref)
  | CheckStatus (r : ref)
  | GetActiveJobName (r : ref)
  | GetPercentDone (r : ref)
  | GetName (r : ref)
  | Increment (r : ref).

(** Run a call for its effect, dropping the value it returns. *)
Definition void {A} (m : M A) : M unit := m ≫= λ _, mret tt.

Definition exec (op : Op) : M unit :=
  match op with
  | NewTaskHandle name interrupts => void (Construct.TaskHandle name interrupts)
  | NewNullTaskHandle => void Construct.NullTaskHandle
  | NewJobSet handle name count => void (Construct.JobSet handle name count)
  | NewNullJobSet => void Construct.NullJobSet
  | Stop r =>
      virtual r (TaskHandle.stop r) (NullTaskHandle.stop r) no_method no_method
  | CurrentJobset r =>
      virtual r (void (TaskHandle.current_jobset r))
        (void (NullTaskHandle.current_jobset r)) no_method no_method
  | AddObserver r observer =>
      virtual r (TaskHandle.add_observer r observer)
        (NullTaskHandle.add_observer r observer) no_method no_method
  | IsStopped r => void (Dispatch.is_stopped r)
  | GetJobsets r =>
      virtual r (void (TaskHandle.get_jobsets r))
        (void (NullTaskHandle.get_jobsets r)) no_method no_method
  | CreateJobset r name count =>
      virtual r (void (TaskHandle.create_jobset r name count))
        (void (NullTaskHandle.create_jobset r name count)) no_method no_method
  | StartedJob r name =>
      virtual r no_method no_method (JobSet.started_job r name)
        (NullJobSet.started_job r name)
  | FinishedJob r =>
      virtual r no_method no_method (JobSet.finished_job r)
        (NullJobSet.finished_job r)
  | CheckStatus r =>
      virtual r no_method no_method (JobSet.check_status r)
        (NullJobSet.check_status r)
  | GetActiveJobName r =>
      virtual r no_method no_method (void (JobSet.get_active_job_name r))
        (void (NullJobSet.get_active_job_name r))
  | GetPercentDone r =>
      virtual r no_method no_method (void (JobSet.get_percent_done r))
        (void (NullJobSet.get_percent_done r))
  | GetName r =>
      virtual r no_method no_method (void (JobSet.get_name r))
        (void (NullJobSet.get_name r))
  | Increment r =>
      virtual r no_method no_method (JobSet.increment r)
        (NullJobSet.increment r)
  end.

(** The world after a sequence of calls. *)
Definition run (ops : list Op) (w : World) : World :=
  foldl (λ w op, after (exec op) w) w ops.

(** The worlds a client can build from nothing. *)
Definition reachable (w : World) : Prop := ∃ ops, w = run ops empty_world.

(** ** Worked scenarios *)

(** An interruptible handle at address 0 with one job set "Phase1" of two
    jobs at address 1, after one job "a" has been started and finished. *)
Definition phase1_world : World :=
  run [NewTaskHandle "Task" true; AddObserver 0 (Obs 7 []);
       CreateJobset 0 "Phase1" (Some 2); StartedJob 1 "a";
       FinishedJob 1] empty_world.

(** ** How the heap may evolve

    One object as it is before and after some calls: it keeps its class; a
    handle keeps its name and its [interrupts] flag, is never un-stopped, is
    stopped only if it interrupts, and only appends to its lists; a job set
    keeps its handle and name and never counts down. *)
Definition obj_step (o o' : Obj) : Prop :=
  match o, o' with
  | OTaskHandle th, OTaskHandle th' =>
      th_name th' = th_name th ∧
      interrupts th' = interrupts th ∧
      (stopped th = true → stopped th' = true) ∧
      (stopped th' = true → stopped th = true ∨ interrupts th = true) ∧
      job_sets th `prefix_of` job_sets th' ∧
      observers th `prefix_of` observers th'
  | OJobSet js, OJobSet js' =>
      handle js' = handle js ∧ name js' = name js ∧ done js ≤ done js'
  | ONullTaskHandle, ONullTaskHandle => True
  | ONullJobSet, ONullJobSet => True
  | _, _ => False
  end.

(** What holds of every object a client can reach. *)
Definition obj_good (o : Obj) : Prop :=
  match o with
  | OTaskHandle th => stopped th = true → interrupts th = true
  | OJobSet js => 0 ≤ done js
  | _ => True
  end.

Definition good (w : World) : Prop :=
  ∀ i o, heap w !! i = Some o → obj_good o.

Record evolves (w w' : World) : Prop := mkEvolves {
  evolves_old : ∀ i o, heap w !! i = Some o →
                  ∃ o', heap w' !! i = Some o' ∧ obj_step o o';
  evolves_new : ∀ i o', heap w !! i = None → heap w' !! i = Some o' →
                  obj_good o';
  evolves_calls : calls w `prefix_of` calls w'
}.

(** A computation whose every run evolves the world. *)
Definition mono {A} (m : M A) : Prop := ∀ w, evolves w (after m w).

(** The observers a handle calls in one notification pass, by identity. *)
Definition notified (th : TaskHandleObj) : list nat := obs_id <$> observers th.

(** The handle after one notification pass: each observer called has
    registered its own observers, in turn. *)
Definition informed (th : TaskHandleObj) : TaskHandleObj :=
  set_observers (observers th ++ (observers th ≫= obs_registers)) th.

(** A computation that never raises [InterruptedTaskError]. *)
Definition uninterrupted {A} (m : M A) : Prop :=
  ∀ w, result m w ≠ Raise InterruptedTaskError.

(** A call made on handle [h] runs one full notification pass: the call log
    grows by exactly the observers registered on [h] when the call is made,
    each once, in registration order. *)
Definition informs_all {A} (m : M A) (h : ref) (w : World) : Prop :=
  ∃ th, heap w !! h = Some (OTaskHandle th) ∧
        calls (after m w) = calls w ++ notified th.

(** The scenario of [phase1_world] once the handle has been stopped. *)
Definition stopped_world : World := after (TaskHandle.stop 0) phase1_world.

(** A handle that does not interrupt, with one observer and one job set. *)
Definition deaf_world : World :=
  run [NewTaskHandle "Task" false; AddObserver 0 (Obs 7 []);
       CreateJobset 0 "JobSet" (Some 4)] empty_world.

(** A job set created without a count, on an interruptible handle. *)
Definition unbounded_world : World :=
  run [NewTaskHandle "Task" true; CreateJobset 0 "JobSet" None] empty_world.

(** ** Relations between worlds, object by object

    [pointwise S N w w']: every object of [w] is still there in [w'], at the
    same address and related to what it was by [S]; every object that is new
    in [w'] satisfies [N]. *)
Definition pointwise (S : Obj → Obj → Prop) (N : Obj → Prop)
    (w w' : World) : Prop :=
  (∀ i o, heap w !! i = Some o → ∃ o', heap w' !! i = Some o' ∧ S o o') ∧
  (∀ i o', heap w !! i = None → heap w' !! i = Some o' → N o').

(** What [S] and [N] must satisfy for [pointwise S N] to compose. *)
Class ObjRel (S : Obj → Obj → Prop) (N : Obj → Prop) : Prop := {
  obj_rel_refl : ∀ o, S o o;
  obj_rel_trans : ∀ o1 o2 o3, S o1 o2 → S o2 o3 → S o1 o3;
  obj_rel_new : ∀ o o', S o o' → N o → N o'
}.

(** A computation whose every run relates the world before to the world
    after. *)
Definition steps (R : World → World → Prop) {A} (m : M A) : Prop :=
  ∀ w, R w (after m w).

(** Who is listed where: an object keeps its class, a handle its
    [job_sets], a job set its [handle]; a new handle lists nothing. *)
Definition obj_frame (o o' : Obj) : Prop :=
  match o, o' with
  | OTaskHandle th, OTaskHandle th' => job_sets th' = job_sets th
  | OJobSet js, OJobSet js' => handle js' = handle js
  | ONullTaskHandle, ONullTaskHandle => True
  | ONullJobSet, ONullJobSet => True
  | _, _ => False
  end.

Definition obj_unlisted (o : Obj) : Prop :=
  match o with
  | OTaskHandle th => job_sets th = []
  | _ => True
  end.

Definition frame : World → World → Prop := pointwise obj_frame obj_unlisted.

(** Every reference a handle lists is listed once and refers to a job set
    whose handle it is. *)
Definition owned (w : World) : Prop :=
  ∀ h th, heap w !! h = Some (OTaskHandle th) →
    NoDup (job_sets th) ∧
    ∀ j, j ∈ job_sets th →
      ∃ js, heap w !! j = Some (OJobSet js) ∧ handle js = h.

(** The count of a job set: [None] stays [None], a number does not
    decrease. *)
Definition count_le (c c' : option Z) : Prop :=
  match c, c' with
  | None, None => True
  | Some a, Some b => a ≤ b
  | _, _ => False
  end.

Definition obj_count (o o' : Obj) : Prop :=
  match o, o' with
  | OTaskHandle _, OTaskHandle _ => True
  | OJobSet js, OJobSet js' => count_le (count js) (count js')
  | ONullTaskHandle, ONullTaskHandle => True
  | ONullJobSet, ONullJobSet => True
  | _, _ => False
  end.

Definition counts : World → World → Prop := pointwise obj_count (λ _, True).

(** A call other than [create_jobset]. *)
Definition creates_no_jobset (op : Op) : Prop :=
  match op with
  | CreateJobset _ _ _ => False
  | _ => True
  end.

(** ** Observers as arbitrary callables

    In the source an observer is any callable: it may raise, and it may call
    back into the handle and its job sets.  Here the body of an observer is
    an arbitrary computation, [body self observer] being what [observer]
    does when handle [self] calls it; the notifying methods are the source's
    again, with that body run at each [observer()]. *)
Definition Body : Type := ref → Observer → M unit.

(** The observers of the model above: they register [obs_registers]. *)
Definition plain_body : Body :=
  λ self observer, for_each (obs_registers observer) (TaskHandle.add_observer self).

Module AnyObserver.

Definition call_observer (body : Body) (self : ref) (observer : Observer)
  : M unit :=
  log_call (obs_id observer) ;;
  body self observer.

Definition _inform_observers (body : Body) (self : ref) : M unit :=
  th ← self_TaskHandle self;
  for_each (observers th) (call_observer body self).

Definition stop (body : Body) (self : ref) : M unit :=
  th ← self_TaskHandle self;
  if interrupts th then
    setattr_TaskHandle self (set_stopped true) ;;
    _inform_observers body self
  else mret tt.

Definition create_jobset (body : Body) (self : ref) (name : string)
    (count : option Z) : M ref :=
  result ← Construct.JobSet self name count;
  setattr_TaskHandle self (λ th, set_job_sets (job_sets th ++ [result]) th) ;;
  _inform_observers body self ;;
  mret result.

(** [self.handle._inform_observers()], on a handle of either class. *)
Definition handle_inform_observers (body : Body) (self : ref) : M unit :=
  virtual self (_inform_observers body self)
    (NullTaskHandle._inform_observers self) no_method no_method.

Definition started_job (body : Body) (self : ref) (name : string) : M unit :=
  JobSet.check_status self ;;
  setattr_JobSet self (set_job_name (Some name)) ;;
  js ← self_JobSet self;
  handle_inform_observers body (handle js).

Definition finished_job (body : Body) (self : ref) : M unit :=
  JobSet.check_status self ;;
  setattr_JobSet self (λ js, set_done (done js + 1) js) ;;
  js ← self_JobSet self;
  handle_inform_observers body (handle js) ;;
  setattr_JobSet self (set_job_name None).

End AnyObserver.

(** No observer raises [InterruptedTaskError]. *)
Definition uninterrupted_body (body : Body) : Prop :=
  ∀ self observer, uninterrupted (body self observer).

(** Every observer returns normally. *)
Definition returning (body : Body) : Prop :=
  ∀ self observer w, result (body self observer) w = Return tt.

(** Every observer returns normally and has no observer called in turn: it
    starts no notification of its own. *)
Definition silent (body : Body) : Prop :=
  ∀ self observer w,
    result (body self observer) w = Return tt ∧
    calls (after (body self observer) w) = calls w.

(** Every observer returns normally and leaves the job sets, and the
    [stopped] flag of the handles, as they are. *)
Definition bystander (body : Body) : Prop :=
  ∀ self observer w,
    result (body self observer) w = Return tt ∧
    (∀ j js, heap w !! j = Some (OJobSet js) →
       heap (after (body self observer) w) !! j = Some (OJobSet js)) ∧
    (∀ h th, heap w !! h = Some (OTaskHandle th) →
       ∃ th', heap (after (body self observer) w) !! h = Some (OTaskHandle th') ∧
              stopped th' = stopped th).

(** An observer that raises [InterruptedTaskError], as one does that calls
    [check_status] on a job set of a stopped handle. *)
Definition interrupting_body : Body := λ _ _, raise InterruptedTaskError.

(** An observer that only watches. *)
Definition watching_body : Body := λ _ _, mret tt.

(** Observer 1 is a cancel button: it calls [self.stop()] unless the handle
    is stopped already; the other observers only watch.  [depth] bounds the
    nesting of the calls. *)
Fixpoint cancelling_body (depth : nat) : Body :=
  λ self observer,
    match depth with
    | O => mret tt
    | Datatypes.S depth' =>
        if Nat.eqb (obs_id observer) 1 then
          b ← TaskHandle.is_stopped self;
          if b : bool then mret tt
          else AnyObserver.stop (cancelling_body depth') self
        else mret tt
    end.

(** An interruptible handle with observers 1 and 2. *)
Definition two_observers_world : World :=
  run [NewTaskHandle "Task" true; AddObserver 0 (Obs 1 []);
       AddObserver 0 (Obs 2 [])] empty_world.

(** Two interruptible handles, at addresses 0 and 1, each with one job set,
    at addresses 2 and 3. *)
Definition two_handles_world : World :=
  run [NewTaskHandle "A" true; NewTaskHandle "B" true;
       CreateJobset 0 "a" (Some 1); CreateJobset 1 "b" (Some 1)] empty_world.

(** A job set, at address 1, constructed on a [NullTaskHandle]. *)
Definition null_bound_world : World :=
  run [NewNullTaskHandle; NewJobSet 0 "JobSet" (Some 2)] empty_world.

(** A job set, at address 1, whose count starts at 0. *)
Definition zero_count_world : World :=
  run [NewTaskHandle "Task" true; CreateJobset 0 "JobSet" (Some 0);
       StartedJob 1 "a"; FinishedJob 1] empty_world.

(** An interruptible handle with an observer 1 that registers observer 2
    each time it is called. *)
Definition registering_world : World :=
  run [NewTaskHandle "Task" true; AddObserver 0 (Obs 1 [Obs 2 []])]
    empty_world.

Example phase1_world_eq :
  phase1_world =
  mkWorld [OTaskHandle (mkTaskHandle "Task" true false [1%nat] [Obs 7 []]);
           OJobSet (mkJobSet 0 "Phase1" (Some 2) 1 None)]
          [7; 7; 7]%nat.
Proof. reflexivity. Qed.

Example phase1_percent :
  JobSet.get_percent_done 1 phase1_world = (Return (Some 50), phase1_world).
Proof. reflexivity. Qed.

Example phase1_stop_then_start :
  (TaskHandle.stop 0 ;; JobSet.started_job 1 "b") phase1_world =
  (Raise InterruptedTaskError,
   mkWorld [OTaskHandle (mkTaskHandle "Task" true true [1%nat] [Obs 7 []]);
            OJobSet (mkJobSet 0 "Phase1" (Some 2) 1 None)]
           [7; 7; 7; 7]%nat).
Proof. reflexivity. Qed.

(** An observer that registers another one while it runs: the pass that is
    under way calls only the observers registered when it began. *)
Example snapshot_pass :
  run [NewTaskHandle "Task" true; AddObserver 0 (Obs 1 [Obs 2 []]);
       Stop 0; Stop 0] empty_world =
  mkWorld [OTaskHandle
             (mkTaskHandle "Task" true true []
                [Obs 1 [Obs 2 []]; Obs 2 []; Obs 2 []])]
          [1; 1; 2]%nat.
Proof. reflexivity. Qed.

(** ** Running computations *)

Lemma bind_Return {A B} (m : M A) (f : A → M B) w a w' :
  m w = (Return a, w') → (m ≫= f) w = f a w'.
Proof. intros H. unfold mbind, M_bind. by rewrite H. Qed.

Lemma bind_Raise {A B} (m : M A) (f : A → M B) w e w' :
  m w = (Raise e, w') → (m ≫= f) w = (Raise e, w').
Proof. intros H. unfold mbind, M_bind. by rewrite H. Qed.

Lemma deref_eq w r o : heap w !! r = Some o → deref r w = (Return o, w).
Proof. intros H. unfold deref. by rewrite H. Qed.

Lemma self_TaskHandle_eq w r th :
  heap w !! r = Some (OTaskHandle th) → self_TaskHandle r w = (Return th, w).
Proof.
  intros H. unfold self_TaskHandle. by rewrite (bind_Return _ _ _ _ _ (deref_eq _ _ _ H)).
Qed.

Lemma self_JobSet_eq w r js :
  heap w !! r = Some (OJobSet js) → self_JobSet r w = (Return js, w).
Proof.
  intros H. unfold self_JobSet. by rewrite (bind_Return _ _ _ _ _ (deref_eq _ _ _ H)).
Qed.

Lemma setattr_TaskHandle_eq w r th f :
  heap w !! r = Some (OTaskHandle th) →
  setattr_TaskHandle r f w = (Return tt, put r (OTaskHandle (f th)) w).
Proof.
  intros H. unfold setattr_TaskHandle.
  by rewrite (bind_Return _ _ _ _ _ (self_TaskHandle_eq _ _ _ H)).
Qed.

Lemma setattr_JobSet_eq w r js f :
  heap w !! r = Some (OJobSet js) →
  setattr_JobSet r f w = (Return tt, put r (OJobSet (f js)) w).
Proof.
  intros H. unfold setattr_JobSet.
  by rewrite (bind_Return _ _ _ _ _ (self_JobSet_eq _ _ _ H)).
Qed.

(** A failed read of [self] leaves the world as it was. *)
Lemma self_TaskHandle_world w r : (self_TaskHandle r w).2 = w.
Proof.
  unfold self_TaskHandle, mbind, M_bind, deref.
  destruct (heap w !! r) as [[]|]; reflexivity.
Qed.

Lemma self_JobSet_world w r : (self_JobSet r w).2 = w.
Proof.
  unfold self_JobSet, mbind, M_bind, deref.
  destruct (heap w !! r) as [[]|]; reflexivity.
Qed.

Lemma self_TaskHandle_inv w r th w' :
  self_TaskHandle r w = (Return th, w') →
  w' = w ∧ heap w !! r = Some (OTaskHandle th).
Proof.
  unfold self_TaskHandle, mbind, M_bind, deref.
  destruct (heap w !! r) as [[]|]; cbn; intros [= <- <-] || intros [=]; done.
Qed.

Lemma self_JobSet_inv w r js w' :
  self_JobSet r w = (Return js, w') →
  w' = w ∧ heap w !! r = Some (OJobSet js).
Proof.
  unfold self_JobSet, mbind, M_bind, deref.
  destruct (heap w !! r) as [[]|]; cbn; intros [= <- <-] || intros [=]; done.
Qed.

(** ** The evolution relation is a preorder that preserves goodness *)

Lemma obj_step_refl o : obj_step o o.
Proof. destruct o; cbn; repeat split; auto; done || lia. Qed.

Lemma obj_step_trans o1 o2 o3 : obj_step o1 o2 → obj_step o2 o3 → obj_step o1 o3.
Proof.
  destruct o1 as [t1|j1| |], o2 as [t2|j2| |], o3 as [t3|j3| |]; cbn; try tauto.
  - intros (Hn1 & Hi1 & Hs1 & Hb1 & Hj1 & Ho1) (Hn2 & Hi2 & Hs2 & Hb2 & Hj2 & Ho2).
    repeat split; try congruence; auto.
    + intros H3. destruct (Hb2 H3) as [H2|H2]; [auto | right; congruence].
    + by etrans.
    + by etrans.
  - intros (Hh1 & Hn1 & Hd1) (Hh2 & Hn2 & Hd2).
    repeat split; try congruence. lia.
Qed.

Lemma obj_step_good o o' : obj_step o o' → obj_good o → obj_good o'.
Proof.
  destruct o as [t|j| |], o' as [t'|j'| |]; cbn; try tauto.
  - intros (_ & Hi & _ & Hb & _) Hg Hs.
    destruct (Hb Hs) as [H|H]; [rewrite Hi; auto | congruence].
  - intros (_ & _ & Hd). lia.
Qed.

Lemma evolves_refl w : evolves w w.
Proof.
  split.
  - intros i o H. exists o. split; [done | apply obj_step_refl].
  - intros i o H1 H2. congruence.
  - done.
Qed.

Lemma evolves_trans w1 w2 w3 : evolves w1 w2 → evolves w2 w3 → evolves w1 w3.
Proof.
  intros [O1 N1 C1] [O2 N2 C2]. split.
  - intros i o H. destruct (O1 _ _ H) as (o' & H' & S1).
    destruct (O2 _ _ H') as (o'' & H'' & S2).
    exists o''. split; [done | by eapply obj_step_trans].
  - intros i o'' H1 H3. destruct (heap w2 !! i) as [o'|] eqn:H2.
    + destruct (O2 _ _ H2) as (o3 & H3' & S2).
      assert (o3 = o'') by congruence. subst o3.
      eapply obj_step_good; [exact S2 | by eapply N1].
    + by eapply N2.
  - by etrans.
Qed.

Lemma evolves_good w w' : evolves w w' → good w → good w'.
Proof.
  intros [O N C] G i o' H'. destruct (heap w !! i) as [o|] eqn:H.
  - destruct (O _ _ H) as (o2 & H2 & S).
    assert (o2 = o') by congruence. subst o2.
    eapply obj_step_good; [exact S | by eapply G].
  - by eapply N.
Qed.

Lemma good_empty : good empty_world.
Proof. intros i o. cbn. by rewrite lookup_nil. Qed.

(** One in-place update of the object at [r]. *)
Lemma evolves_store w r o o' :
  heap w !! r = Some o → obj_step o o' →
  evolves w (put r o' w).
Proof.
  intros H S. split; cbn.
  - intros i o1 H1. destruct (decide (r = i)) as [->|Hne].
    + exists o'. split; [| congruence].
      apply list_lookup_insert_eq. by eapply lookup_lt_Some.
    + exists o1. split; [by rewrite list_lookup_insert_ne | apply obj_step_refl].
  - intros i o1 H1 H2. destruct (decide (r = i)) as [->|Hne]; [congruence |].
    rewrite list_lookup_insert_ne in H2; congruence.
  - done.
Qed.

Lemma evolves_alloc w o :
  obj_good o → evolves w (mkWorld (heap w ++ [o]) (calls w)).
Proof.
  intros G. split; cbn.
  - intros i o1 H1. exists o1. split; [| apply obj_step_refl].
    by apply lookup_app_l_Some.
  - intros i o1 H1 H2. apply lookup_ge_None in H1.
    rewrite lookup_app_r in H2 by done.
    destruct (i - length (heap w))%nat; cbn in H2; [congruence | done].
  - done.
Qed.

Lemma evolves_log w i : evolves w (mkWorld (heap w) (calls w ++ [i])).
Proof.
  split; cbn.
  - intros j o H. exists o. split; [done | apply obj_step_refl].
  - congruence.
  - by apply prefix_app_r.
Qed.

(** ** Every method evolves the world *)

Create HintDb mono discriminated.

Lemma mono_ret {A} (a : A) : mono (mret a).
Proof. intros w. apply evolves_refl. Qed.

Lemma mono_raise {A} e : mono (@raise A e).
Proof. intros w. apply evolves_refl. Qed.

Lemma mono_no_method {A} : mono (@no_method A).
Proof. apply mono_raise. Qed.

Lemma mono_bind {A B} (m : M A) (f : A → M B) :
  mono m → (∀ a, mono (f a)) → mono (m ≫= f).
Proof.
  intros Hm Hf w. specialize (Hm w). unfold after, mbind, M_bind in *.
  destruct (m w) as [[a|e] w']; cbn in *; [| done].
  eapply evolves_trans; [exact Hm | apply Hf].
Qed.

Lemma mono_deref r : mono (deref r).
Proof.
  intros w. unfold after, deref. destruct (heap w !! r); apply evolves_refl.
Qed.

Lemma mono_self_TaskHandle r : mono (self_TaskHandle r).
Proof. intros w. unfold after. rewrite self_TaskHandle_world. apply evolves_refl. Qed.

Lemma mono_self_JobSet r : mono (self_JobSet r).
Proof. intros w. unfold after. rewrite self_JobSet_world. apply evolves_refl. Qed.

Lemma mono_alloc o : obj_good o → mono (alloc o).
Proof. intros G w. by apply evolves_alloc. Qed.

Lemma mono_log_call i : mono (log_call i).
Proof. intros w. apply evolves_log. Qed.

Lemma mono_setattr_TaskHandle r f :
  (∀ th, obj_step (OTaskHandle th) (OTaskHandle (f th))) →
  mono (setattr_TaskHandle r f).
Proof.
  intros Hf w. unfold after.
  destruct (self_TaskHandle r w) as [[th|e] w'] eqn:E.
  - apply self_TaskHandle_inv in E as [-> H].
    rewrite (setattr_TaskHandle_eq _ _ _ _ H). by eapply evolves_store.
  - unfold setattr_TaskHandle. rewrite (bind_Raise _ _ _ _ _ E). cbn.
    pose proof (self_TaskHandle_world w r) as Hw. rewrite E in Hw. cbn in Hw.
    subst w'. apply evolves_refl.
Qed.

Lemma mono_setattr_JobSet r f :
  (∀ js, obj_step (OJobSet js) (OJobSet (f js))) →
  mono (setattr_JobSet r f).
Proof.
  intros Hf w. unfold after.
  destruct (self_JobSet r w) as [[js|e] w'] eqn:E.
  - apply self_JobSet_inv in E as [-> H].
    rewrite (setattr_JobSet_eq _ _ _ _ H). by eapply evolves_store.
  - unfold setattr_JobSet. rewrite (bind_Raise _ _ _ _ _ E). cbn.
    pose proof (self_JobSet_world w r) as Hw. rewrite E in Hw. cbn in Hw.
    subst w'. apply evolves_refl.
Qed.

Lemma mono_for_each {A} (xs : list A) (body : A → M unit) :
  (∀ x, mono (body x)) → mono (for_each xs body).
Proof.
  intros Hb. induction xs as [|x xs IH]; cbn.
  - apply mono_ret.
  - apply mono_bind; [apply Hb | intros _; exact IH].
Qed.

Lemma mono_virtual {A} r (m1 m2 m3 m4 : M A) :
  mono m1 → mono m2 → mono m3 → mono m4 → mono (virtual r m1 m2 m3 m4).
Proof.
  intros H1 H2 H3 H4. unfold virtual.
  apply mono_bind; [apply mono_deref | intros []; assumption].
Qed.

Lemma mono_void {A} (m : M A) : mono m → mono (void m).
Proof. intros H. apply mono_bind; [done | intros _; apply mono_ret]. Qed.

#[local] Hint Resolve mono_ret mono_raise mono_no_method mono_deref
  mono_self_TaskHandle mono_self_JobSet mono_log_call mono_for_each
  mono_virtual mono_void : mono.

Lemma mono_add_observer r o : mono (TaskHandle.add_observer r o).
Proof.
  apply mono_setattr_TaskHandle. intros th. cbn.
  repeat split; auto. by apply prefix_app_r.
Qed.

Lemma mono_call_observer r o : mono (TaskHandle.call_observer r o).
Proof.
  apply mono_bind; [apply mono_log_call | intros _].
  apply mono_for_each. intros x. apply mono_add_observer.
Qed.

Lemma mono_inform_observers r : mono (TaskHandle._inform_observers r).
Proof.
  apply mono_bind; [apply mono_self_TaskHandle | intros th].
  apply mono_for_each. intros x. apply mono_call_observer.
Qed.

Lemma mono_stop r : mono (TaskHandle.stop r).
Proof.
  intros w. unfold after, TaskHandle.stop.
  destruct (self_TaskHandle r w) as [[th|e] w'] eqn:E.
  - apply self_TaskHandle_inv in E as [-> H].
    rewrite (bind_Return _ _ _ _ _ (self_TaskHandle_eq _ _ _ H)).
    destruct (interrupts th) eqn:I; [| apply evolves_refl].
    rewrite (bind_Return _ _ _ _ _ (setattr_TaskHandle_eq _ _ _ _ H)).
    eapply evolves_trans; [| apply mono_inform_observers].
    eapply evolves_store; [exact H |]. cbn. repeat split; auto.
  - rewrite (bind_Raise _ _ _ _ _ E). cbn.
    pose proof (self_TaskHandle_world w r) as Hw. rewrite E in Hw. cbn in Hw.
    subst w'. apply evolves_refl.
Qed.

Lemma mono_create_jobset r n c : mono (TaskHandle.create_jobset r n c).
Proof.
  apply mono_bind; [apply mono_alloc; cbn; lia | intros j].
  apply mono_bind.
  - apply mono_setattr_TaskHandle. intros th. cbn.
    repeat split; auto. by apply prefix_app_r.
  - intros _. apply mono_bind; [apply mono_inform_observers | auto with mono].
Qed.

(** A computation that reads [self] and returns a value. *)
Ltac mono_reader :=
  intros; apply mono_bind; [auto with mono | intros ?; apply mono_ret].

Lemma mono_is_stopped r : mono (TaskHandle.is_stopped r).
Proof. mono_reader. Qed.

Lemma mono_current_jobset r : mono (TaskHandle.current_jobset r).
Proof. mono_reader. Qed.

Lemma mono_get_jobsets r : mono (TaskHandle.get_jobsets r).
Proof. mono_reader. Qed.

Lemma mono_get_active_job_name r : mono (JobSet.get_active_job_name r).
Proof. mono_reader. Qed.

Lemma mono_get_name r : mono (JobSet.get_name r).
Proof. mono_reader. Qed.

Lemma mono_dispatch_is_stopped r : mono (Dispatch.is_stopped r).
Proof.
  apply mono_virtual;
    [apply mono_is_stopped | apply mono_ret | apply mono_no_method ..].
Qed.

Lemma mono_dispatch_inform_observers r : mono (Dispatch._inform_observers r).
Proof.
  apply mono_virtual;
    [apply mono_inform_observers | apply mono_ret | apply mono_no_method ..].
Qed.

Lemma mono_check_status r : mono (JobSet.check_status r).
Proof.
  apply mono_bind; [apply mono_self_JobSet | intros js].
  apply mono_bind; [apply mono_dispatch_is_stopped | intros []; auto with mono].
Qed.

Lemma mono_started_job r n : mono (JobSet.started_job r n).
Proof.
  apply mono_bind; [apply mono_check_status | intros _].
  apply mono_bind; [apply mono_setattr_JobSet; intros js; cbn; auto with lia | intros _].
  apply mono_bind; [apply mono_self_JobSet | intros js].
  apply mono_dispatch_inform_observers.
Qed.

Lemma mono_finished_job r : mono (JobSet.finished_job r).
Proof.
  apply mono_bind; [apply mono_check_status | intros _].
  apply mono_bind; [apply mono_setattr_JobSet; intros js; cbn; auto with lia | intros _].
  apply mono_bind; [apply mono_self_JobSet | intros js].
  apply mono_bind; [apply mono_dispatch_inform_observers | intros _].
  apply mono_setattr_JobSet; intros js'; cbn; auto with lia.
Qed.

Lemma mono_increment r : mono (JobSet.increment r).
Proof.
  apply mono_bind; [apply mono_self_JobSet | intros js].
  destruct (count js); [| apply mono_raise].
  apply mono_setattr_JobSet; intros js'; cbn; auto with lia.
Qed.

Lemma mono_get_percent_done r : mono (JobSet.get_percent_done r).
Proof.
  apply mono_bind; [apply mono_self_JobSet | intros js].
  destruct (count js) as [c|]; [destruct (0 <? c) |]; apply mono_ret.
Qed.

Lemma mono_null_alloc : mono Construct.NullJobSet.
Proof. by apply mono_alloc. Qed.

#[local] Hint Resolve mono_stop mono_add_observer mono_create_jobset
  mono_started_job mono_finished_job mono_check_status mono_increment
  mono_get_percent_done mono_dispatch_is_stopped mono_is_stopped
  mono_current_jobset mono_get_jobsets mono_get_active_job_name
  mono_get_name mono_null_alloc : mono.

Lemma mono_exec op : mono (exec op).
Proof.
  destruct op; cbn [exec];
    first [ apply mono_void, mono_alloc; cbn; done || lia
          | apply mono_virtual; try apply mono_void;
            first [ apply mono_ret | apply mono_no_method | auto with mono ]
          | apply mono_void; auto with mono ].
Qed.

Lemma evolves_run ops w : evolves w (run ops w).
Proof.
  revert w. induction ops as [|op ops IH]; intros w; cbn.
  - apply evolves_refl.
  - eapply evolves_trans; [apply mono_exec | apply IH].
Qed.

Lemma reachable_good w : reachable w → good w.
Proof.
  intros [ops ->]. eapply evolves_good; [apply evolves_run | apply good_empty].
Qed.

(** ** What one notification pass does *)

Lemma put_lookup w r o o' : heap w !! r = Some o → heap (put r o' w) !! r = Some o'.
Proof. intros H. cbn. apply list_lookup_insert_eq. by eapply lookup_lt_Some. Qed.

Lemma put_lookup_ne w r o' i : r ≠ i → heap (put r o' w) !! i = heap w !! i.
Proof. intros H. cbn. by apply list_lookup_insert_ne. Qed.

Lemma put_put w r o o' : put r o' (put r o w) = put r o' w.
Proof. unfold put. cbn. by rewrite list_insert_insert_eq. Qed.

Lemma put_id w r o : heap w !! r = Some o → put r o w = w.
Proof. intros H. unfold put. rewrite list_insert_id by done. by destruct w. Qed.

Lemma set_observers_id th : set_observers (observers th) th = th.
Proof. by destruct th. Qed.

Lemma add_observer_eq w h th o :
  heap w !! h = Some (OTaskHandle th) →
  TaskHandle.add_observer h o w =
    (Return tt, put h (OTaskHandle (set_observers (observers th ++ [o]) th)) w).
Proof. intros H. unfold TaskHandle.add_observer. by erewrite setattr_TaskHandle_eq. Qed.

Lemma for_each_add_observer os : ∀ w h th,
  heap w !! h = Some (OTaskHandle th) →
  for_each os (TaskHandle.add_observer h) w =
    (Return tt, put h (OTaskHandle (set_observers (observers th ++ os) th)) w).
Proof.
  induction os as [|o os IH]; intros w h th H; cbn [for_each].
  - rewrite app_nil_r, set_observers_id, put_id by done. reflexivity.
  - rewrite (bind_Return _ _ _ _ _ (add_observer_eq _ _ _ o H)).
    rewrite (IH _ _ _ (put_lookup _ _ _ _ H)), put_put. cbn.
    by rewrite <- app_assoc.
Qed.

Lemma call_observer_eq w h th o :
  heap w !! h = Some (OTaskHandle th) →
  TaskHandle.call_observer h o w =
    (Return tt,
     mkWorld
       (<[h := OTaskHandle (set_observers (observers th ++ obs_registers o) th)]>
          (heap w))
       (calls w ++ [obs_id o])).
Proof.
  intros H. unfold TaskHandle.call_observer.
  erewrite bind_Return by reflexivity.
  by rewrite (for_each_add_observer _ _ _ th).
Qed.

Lemma for_each_call_observer os : ∀ w h th,
  heap w !! h = Some (OTaskHandle th) →
  for_each os (TaskHandle.call_observer h) w =
    (Return tt,
     mkWorld
       (<[h := OTaskHandle
                 (set_observers (observers th ++ (os ≫= obs_registers)) th)]>
          (heap w))
       (calls w ++ (obs_id <$> os))).
Proof.
  induction os as [|o os IH]; intros w h th H; cbn [for_each].
  - cbn. rewrite !app_nil_r, set_observers_id, list_insert_id by done.
    by destruct w.
  - rewrite (bind_Return _ _ _ _ _ (call_observer_eq _ _ _ o H)).
    erewrite IH; [| cbn; apply list_lookup_insert_eq; by eapply lookup_lt_Some].
    cbn. by rewrite list_insert_insert_eq, <- !app_assoc.
Qed.

Lemma inform_observers_eq w h th :
  heap w !! h = Some (OTaskHandle th) →
  TaskHandle._inform_observers h w =
    (Return tt,
     mkWorld (<[h := OTaskHandle (informed th)]> (heap w))
             (calls w ++ notified th)).
Proof.
  intros H. unfold TaskHandle._inform_observers.
  rewrite (bind_Return _ _ _ _ _ (self_TaskHandle_eq _ _ _ H)).
  by rewrite (for_each_call_observer _ _ _ th).
Qed.

(** ** What each method does on well-typed receivers *)

(** Evaluate the first call of a sequence with a known equation for it. *)
Ltac run_with E :=
  first [ rewrite (bind_Return _ _ _ _ _ E) | rewrite (bind_Raise _ _ _ _ _ E) ].

Lemma is_stopped_eq w h th :
  heap w !! h = Some (OTaskHandle th) →
  TaskHandle.is_stopped h w = (Return (stopped th), w).
Proof.
  intros H. unfold TaskHandle.is_stopped.
  by run_with (self_TaskHandle_eq _ _ _ H).
Qed.

Lemma virtual_TaskHandle {A} w r th (m1 m2 m3 m4 : M A) :
  heap w !! r = Some (OTaskHandle th) → virtual r m1 m2 m3 m4 w = m1 w.
Proof. intros H. unfold virtual. by run_with (deref_eq _ _ _ H). Qed.

Lemma virtual_JobSet {A} w r js (m1 m2 m3 m4 : M A) :
  heap w !! r = Some (OJobSet js) → virtual r m1 m2 m3 m4 w = m3 w.
Proof. intros H. unfold virtual. by run_with (deref_eq _ _ _ H). Qed.

Lemma virtual_NullTaskHandle {A} w r (m1 m2 m3 m4 : M A) :
  heap w !! r = Some ONullTaskHandle → virtual r m1 m2 m3 m4 w = m2 w.
Proof. intros H. unfold virtual. by run_with (deref_eq _ _ _ H). Qed.

Lemma virtual_NullJobSet {A} w r (m1 m2 m3 m4 : M A) :
  heap w !! r = Some ONullJobSet → virtual r m1 m2 m3 m4 w = m4 w.
Proof. intros H. unfold virtual. by run_with (deref_eq _ _ _ H). Qed.

Lemma stop_eq w h th :
  heap w !! h = Some (OTaskHandle th) →
  TaskHandle.stop h w =
    if interrupts th then
      (Return tt,
       mkWorld (<[h := OTaskHandle (informed (set_stopped true th))]> (heap w))
               (calls w ++ notified th))
    else (Return tt, w).
Proof.
  intros H. unfold TaskHandle.stop.
  run_with (self_TaskHandle_eq _ _ _ H).
  destruct (interrupts th); [| reflexivity].
  run_with (setattr_TaskHandle_eq _ _ _ (set_stopped true) H).
  erewrite inform_observers_eq by (eapply put_lookup; exact H). cbn.
  by rewrite list_insert_insert_eq.
Qed.

Lemma create_jobset_eq w h th n c :
  heap w !! h = Some (OTaskHandle th) →
  TaskHandle.create_jobset h n c w =
    (Return (length (heap w)),
     mkWorld
       (<[h := OTaskHandle
                 (informed (set_job_sets (job_sets th ++ [length (heap w)]) th))]>
          (heap w ++ [OJobSet (mkJobSet h n c 0 None)]))
       (calls w ++ notified th)).
Proof.
  intros H. unfold TaskHandle.create_jobset.
  erewrite bind_Return by reflexivity.
  assert (heap (mkWorld (heap w ++ [OJobSet (mkJobSet h n c 0 None)]) (calls w))
            !! h = Some (OTaskHandle th)) as H1
    by (cbn; by apply lookup_app_l_Some).
  run_with (setattr_TaskHandle_eq _ _ _
              (λ th, set_job_sets (job_sets th ++ [length (heap w)]) th) H1).
  erewrite bind_Return;
    [| eapply inform_observers_eq, put_lookup; exact H1].
  cbn. by rewrite list_insert_insert_eq.
Qed.

Lemma dispatch_is_stopped_eq w h th :
  heap w !! h = Some (OTaskHandle th) →
  Dispatch.is_stopped h w = (Return (stopped th), w).
Proof.
  intros H. unfold Dispatch.is_stopped.
  rewrite (virtual_TaskHandle _ _ _ _ _ _ _ H). by apply is_stopped_eq.
Qed.

Lemma dispatch_inform_observers_eq w h th :
  heap w !! h = Some (OTaskHandle th) →
  Dispatch._inform_observers h w =
    (Return tt,
     mkWorld (<[h := OTaskHandle (informed th)]> (heap w))
             (calls w ++ notified th)).
Proof.
  intros H. unfold Dispatch._inform_observers.
  rewrite (virtual_TaskHandle _ _ _ _ _ _ _ H). by apply inform_observers_eq.
Qed.

Lemma check_status_eq w j js th :
  heap w !! j = Some (OJobSet js) →
  heap w !! handle js = Some (OTaskHandle th) →
  JobSet.check_status j w =
    (if stopped th then Raise InterruptedTaskError else Return tt, w).
Proof.
  intros Hj Hh. unfold JobSet.check_status.
  run_with (self_JobSet_eq _ _ _ Hj).
  run_with (dispatch_is_stopped_eq _ _ _ Hh).
  by destruct (stopped th).
Qed.

Lemma started_job_eq w j js th n :
  heap w !! j = Some (OJobSet js) →
  heap w !! handle js = Some (OTaskHandle th) →
  JobSet.started_job j n w =
    if stopped th then (Raise InterruptedTaskError, w)
    else
      (Return tt,
       mkWorld
         (<[handle js := OTaskHandle (informed th)]>
            (<[j := OJobSet (set_job_name (Some n) js)]> (heap w)))
         (calls w ++ notified th)).
Proof.
  intros Hj Hh. unfold JobSet.started_job.
  assert (j ≠ handle js) as Hne by (intros E; rewrite <- E in Hh; congruence).
  pose proof (check_status_eq _ _ _ _ Hj Hh) as Hc.
  destruct (stopped th); run_with Hc; [reflexivity |].
  run_with (setattr_JobSet_eq _ _ _ (set_job_name (Some n)) Hj).
  run_with (self_JobSet_eq _ _ _ (put_lookup _ _ _ (OJobSet (set_job_name (Some n) js)) Hj)).
  cbn [handle set_job_name].
  erewrite dispatch_inform_observers_eq; [reflexivity |].
  by rewrite put_lookup_ne.
Qed.

Lemma finished_job_eq w j js th :
  heap w !! j = Some (OJobSet js) →
  heap w !! handle js = Some (OTaskHandle th) →
  JobSet.finished_job j w =
    if stopped th then (Raise InterruptedTaskError, w)
    else
      (Return tt,
       mkWorld
         (<[j := OJobSet (set_job_name None (set_done (done js + 1) js))]>
            (<[handle js := OTaskHandle (informed th)]> (heap w)))
         (calls w ++ notified th)).
Proof.
  intros Hj Hh. unfold JobSet.finished_job.
  assert (j ≠ handle js) as Hne by (intros E; rewrite <- E in Hh; congruence).
  pose proof (check_status_eq _ _ _ _ Hj Hh) as Hc.
  destruct (stopped th); run_with Hc; [reflexivity |].
  run_with (setattr_JobSet_eq _ _ _ (λ js, set_done (done js + 1) js) Hj).
  run_with (self_JobSet_eq _ _ _
              (put_lookup _ _ _ (OJobSet (set_done (done js + 1) js)) Hj)).
  cbn [handle set_done].
  erewrite bind_Return;
    [| apply (dispatch_inform_observers_eq _ _ th); by rewrite put_lookup_ne].
  erewrite setattr_JobSet_eq.
  2:{ cbn. rewrite list_lookup_insert_ne by done.
      apply list_lookup_insert_eq. by eapply lookup_lt_Some. }
  unfold put. cbn.
  rewrite list_insert_insert_ne by done.
  by rewrite list_insert_insert_eq, list_insert_insert_ne by done.
Qed.

Lemma increment_eq w j js :
  heap w !! j = Some (OJobSet js) →
  JobSet.increment j w =
    match count js with
    | Some c => (Return tt, put j (OJobSet (set_count (Some (c + 1)) js)) w)
    | None => (Raise TypeError, w)
    end.
Proof.
  intros Hj. unfold JobSet.increment.
  run_with (self_JobSet_eq _ _ _ Hj).
  destruct (count js); [| reflexivity].
  by erewrite setattr_JobSet_eq.
Qed.

Lemma get_percent_done_eq w j js :
  heap w !! j = Some (OJobSet js) →
  JobSet.get_percent_done j w =
    (Return match count js with
            | Some c =>
                if 0 <? c then Some (Z.min (done js * 100 / c) 100) else None
            | None => None
            end, w).
Proof.
  intros Hj. unfold JobSet.get_percent_done.
  run_with (self_JobSet_eq _ _ _ Hj).
  destruct (count js) as [c|]; [destruct (0 <? c) |]; reflexivity.
Qed.

(** ** Which computations can raise [InterruptedTaskError] *)

Lemma uninterrupted_ret {A} (a : A) : uninterrupted (mret a).
Proof. intros w. cbn. discriminate. Qed.

Lemma uninterrupted_raise {A} e :
  e ≠ InterruptedTaskError → uninterrupted (@raise A e).
Proof. intros He w. cbn. congruence. Qed.

Lemma uninterrupted_no_method {A} : uninterrupted (@no_method A).
Proof. by apply uninterrupted_raise. Qed.

Lemma uninterrupted_bind {A B} (m : M A) (f : A → M B) :
  uninterrupted m → (∀ a, uninterrupted (f a)) → uninterrupted (m ≫= f).
Proof.
  intros Hm Hf w. specialize (Hm w). unfold result, mbind, M_bind in *.
  destruct (m w) as [[a|e] w']; cbn in *; [apply Hf |].
  intros [= ->]. by apply Hm.
Qed.

Lemma uninterrupted_deref r : uninterrupted (deref r).
Proof. intros w. unfold result, deref. by destruct (heap w !! r). Qed.

Lemma uninterrupted_self_TaskHandle r : uninterrupted (self_TaskHandle r).
Proof.
  apply uninterrupted_bind; [apply uninterrupted_deref |].
  intros []; cbn; by (apply uninterrupted_ret || apply uninterrupted_raise).
Qed.

Lemma uninterrupted_self_JobSet r : uninterrupted (self_JobSet r).
Proof.
  apply uninterrupted_bind; [apply uninterrupted_deref |].
  intros []; cbn; by (apply uninterrupted_ret || apply uninterrupted_raise).
Qed.


Lemma uninterrupted_store r o : uninterrupted (store r o).
Proof. intros w. cbn. discriminate. Qed.

Lemma uninterrupted_log_call i : uninterrupted (log_call i).
Proof. intros w. cbn. discriminate. Qed.

Lemma uninterrupted_setattr_TaskHandle r f :
  uninterrupted (setattr_TaskHandle r f).
Proof.
  apply uninterrupted_bind; [apply uninterrupted_self_TaskHandle |].
  intros th. apply uninterrupted_store.
Qed.

Lemma uninterrupted_setattr_JobSet r f : uninterrupted (setattr_JobSet r f).
Proof.
  apply uninterrupted_bind; [apply uninterrupted_self_JobSet |].
  intros js. apply uninterrupted_store.
Qed.

Lemma uninterrupted_for_each {A} (xs : list A) (body : A → M unit) :
  (∀ x, uninterrupted (body x)) → uninterrupted (for_each xs body).
Proof.
  intros Hb. induction xs as [|x xs IH]; cbn.
  - apply uninterrupted_ret.
  - apply uninterrupted_bind; [apply Hb | intros _; exact IH].
Qed.

Lemma uninterrupted_virtual {A} r (m1 m2 m3 m4 : M A) :
  uninterrupted m1 → uninterrupted m2 → uninterrupted m3 → uninterrupted m4 →
  uninterrupted (virtual r m1 m2 m3 m4).
Proof.
  intros H1 H2 H3 H4. unfold virtual.
  apply uninterrupted_bind; [apply uninterrupted_deref | intros []; assumption].
Qed.


Lemma uninterrupted_add_observer r o : uninterrupted (TaskHandle.add_observer r o).
Proof. apply uninterrupted_setattr_TaskHandle. Qed.

Lemma uninterrupted_call_observer r o :
  uninterrupted (TaskHandle.call_observer r o).
Proof.
  apply uninterrupted_bind; [apply uninterrupted_log_call | intros _].
  apply uninterrupted_for_each. intros x. apply uninterrupted_add_observer.
Qed.

Lemma uninterrupted_inform_observers r :
  uninterrupted (TaskHandle._inform_observers r).
Proof.
  apply uninterrupted_bind; [apply uninterrupted_self_TaskHandle | intros th].
  apply uninterrupted_for_each. intros x. apply uninterrupted_call_observer.
Qed.




Lemma uninterrupted_dispatch_inform_observers r :
  uninterrupted (Dispatch._inform_observers r).
Proof.
  apply uninterrupted_virtual; try apply uninterrupted_no_method.
  - apply uninterrupted_inform_observers.
  - apply uninterrupted_ret.
Qed.



(** What [started_job] and [finished_job] do once the check has passed. *)
Lemma uninterrupted_started_job_body r n :
  uninterrupted
    (setattr_JobSet r (set_job_name (Some n)) ;;
     js ← self_JobSet r;
     Dispatch._inform_observers (handle js)).
Proof.
  apply uninterrupted_bind; [apply uninterrupted_setattr_JobSet | intros _].
  apply uninterrupted_bind; [apply uninterrupted_self_JobSet | intros js].
  apply uninterrupted_dispatch_inform_observers.
Qed.

Lemma uninterrupted_finished_job_body r :
  uninterrupted
    (setattr_JobSet r (λ js, set_done (done js + 1) js) ;;
     js ← self_JobSet r;
     Dispatch._inform_observers (handle js) ;;
     setattr_JobSet r (set_job_name None)).
Proof.
  apply uninterrupted_bind; [apply uninterrupted_setattr_JobSet | intros _].
  apply uninterrupted_bind; [apply uninterrupted_self_JobSet | intros js].
  apply uninterrupted_bind; [apply uninterrupted_dispatch_inform_observers |].
  intros _. apply uninterrupted_setattr_JobSet.
Qed.

(** ** Computations that leave the world as it is *)

Lemma readonly_bind {A B} (m : M A) (f : A → M B) w :
  after m w = w → (∀ a, after (f a) w = w) → after (m ≫= f) w = w.
Proof.
  unfold after, mbind, M_bind. intros Hm Hf.
  destruct (m w) as [[a|e] w']; cbn in *; subst w'; [apply Hf | done].
Qed.

Lemma readonly_deref r w : after (deref r) w = w.
Proof. unfold after, deref. by destruct (heap w !! r). Qed.

Lemma readonly_dispatch_is_stopped r w : after (Dispatch.is_stopped r) w = w.
Proof.
  unfold Dispatch.is_stopped, virtual.
  apply readonly_bind; [apply readonly_deref |].
  intros []; try reflexivity.
  apply readonly_bind; [apply self_TaskHandle_world | reflexivity].
Qed.

(** [check_status] never changes the world. *)
Lemma check_status_world w r : after (JobSet.check_status r) w = w.
Proof.
  apply readonly_bind; [apply self_JobSet_world | intros js].
  apply readonly_bind; [apply readonly_dispatch_is_stopped | intros []; reflexivity].
Qed.

(** ** Client calls are resolved on the class of the receiver *)

Lemma exec_on_TaskHandle w r th :
  heap w !! r = Some (OTaskHandle th) →
  exec (Stop r) w = TaskHandle.stop r w ∧
  (∀ o, exec (AddObserver r o) w = TaskHandle.add_observer r o w) ∧
  (∀ n c, exec (CreateJobset r n c) w =
          void (TaskHandle.create_jobset r n c) w).
Proof.
  intros H. cbn [exec]. repeat split; intros;
    by rewrite (virtual_TaskHandle _ _ _ _ _ _ _ H).
Qed.

Lemma exec_on_JobSet w r js :
  heap w !! r = Some (OJobSet js) →
  (∀ n, exec (StartedJob r n) w = JobSet.started_job r n w) ∧
  exec (FinishedJob r) w = JobSet.finished_job r w ∧
  exec (CheckStatus r) w = JobSet.check_status r w ∧
  exec (Increment r) w = JobSet.increment r w.
Proof.
  intros H. cbn [exec]. repeat split; intros;
    by rewrite (virtual_JobSet _ _ _ _ _ _ _ H).
Qed.

Lemma exec_on_NullTaskHandle w r :
  heap w !! r = Some ONullTaskHandle →
  exec (Stop r) w = (Return tt, w) ∧
  (∀ o, exec (AddObserver r o) w = (Return tt, w)) ∧
  exec (IsStopped r) w = (Return tt, w) ∧
  (∀ n c, exec (CreateJobset r n c) w =
          (Return tt, mkWorld (heap w ++ [ONullJobSet]) (calls w))).
Proof.
  intros H. cbn [exec]. unfold Dispatch.is_stopped, void.
  repeat split; intros; unfold mbind, M_bind;
    by rewrite (virtual_NullTaskHandle _ _ _ _ _ _ H).
Qed.

Lemma exec_on_NullJobSet w r :
  heap w !! r = Some ONullJobSet →
  (∀ n, exec (StartedJob r n) w = (Return tt, w)) ∧
  exec (FinishedJob r) w = (Return tt, w) ∧
  exec (CheckStatus r) w = (Return tt, w) ∧
  exec (Increment r) w = (Return tt, w) ∧
  exec (GetPercentDone r) w = (Return tt, w).
Proof.
  intros H. cbn [exec]. unfold void.
  repeat split; intros; unfold mbind, M_bind;
    by rewrite (virtual_NullJobSet _ _ _ _ _ _ H).
Qed.

(** ** A handle across any later calls *)

Lemma evolves_handle w w' h th :
  evolves w w' → heap w !! h = Some (OTaskHandle th) →
  ∃ th', heap w' !! h = Some (OTaskHandle th') ∧
         interrupts th' = interrupts th ∧
         (stopped th = true → stopped th' = true) ∧
         (stopped th' = true → stopped th = true ∨ interrupts th = true).
Proof.
  intros [O _ _] H. destruct (O _ _ H) as ([th'| | |] & H' & S); try done.
  exists th'. cbn in S. tauto.
Qed.

(** * Cancellation *)

(** C1. On a handle that interrupts, [stop()] returns normally; from then
    on, whatever calls the client makes, [is_stopped()] returns [True] and
    [started_job], [finished_job] and [check_status] raise
    [InterruptedTaskError], leaving the world as it is, on every job set
    whose handle it is. *)
Theorem stop_interrupts_job_sets w h th :
  heap w !! h = Some (OTaskHandle th) →
  interrupts th = true →
  result (TaskHandle.stop h) w = Return tt ∧
  ∀ ops,
    let w' := run ops (after (TaskHandle.stop h) w) in
    TaskHandle.is_stopped h w' = (Return true, w') ∧
    ∀ j js,
      heap w' !! j = Some (OJobSet js) → handle js = h →
      (∀ n, JobSet.started_job j n w' = (Raise InterruptedTaskError, w')) ∧
      JobSet.finished_job j w' = (Raise InterruptedTaskError, w') ∧
      JobSet.check_status j w' = (Raise InterruptedTaskError, w').
Proof.
  intros H I. pose proof (stop_eq _ _ _ H) as E. rewrite I in E.
  split; [unfold result; by rewrite E |].
  intros ops w'.
  assert (∃ th1, heap (after (TaskHandle.stop h) w) !! h = Some (OTaskHandle th1)
                 ∧ stopped th1 = true) as (th1 & H1 & S1).
  { unfold after. rewrite E. cbn.
    exists (informed (set_stopped true th)). split; [| reflexivity].
    apply list_lookup_insert_eq. by eapply lookup_lt_Some. }
  destruct (evolves_handle _ w' h th1 (evolves_run ops _) H1)
    as (th' & H' & _ & S' & _).
  specialize (S' S1).
  split.
  - rewrite (is_stopped_eq _ _ _ H'). by rewrite S'.
  - intros j js Hj <-. repeat split; [intros n | |].
    + rewrite (started_job_eq _ _ _ _ n Hj H'). by rewrite S'.
    + rewrite (finished_job_eq _ _ _ _ Hj H'). by rewrite S'.
    + rewrite (check_status_eq _ _ _ _ Hj H'). by rewrite S'.
Qed.

(** The scenario of [phase1_world]: after [stop()] and the creation of a
    second job set, both job sets are interrupted. *)
Lemma stop_interrupts_job_sets_witness :
  let w' := run [CreateJobset 0 "Phase2" None] stopped_world in
  TaskHandle.is_stopped 0 w' = (Return true, w') ∧
  JobSet.started_job 1 "b" w' = (Raise InterruptedTaskError, w') ∧
  JobSet.finished_job 2 w' = (Raise InterruptedTaskError, w').
Proof.
  pose proof (stop_interrupts_job_sets phase1_world 0
                (mkTaskHandle "Task" true false [1%nat] [Obs 7 []])
                eq_refl eq_refl) as [_ H].
  specialize (H [CreateJobset 0 "Phase2" None]).
  destruct H as [H1 H2]. split; [exact H1 |]. split.
  - exact (proj1 (H2 1%nat (mkJobSet 0 "Phase1" (Some 2) 1 None)
                    eq_refl eq_refl) "b").
  - exact (proj1 (proj2 (H2 2%nat (mkJobSet 0 "Phase2" None 0 None)
                           eq_refl eq_refl))).
Defined.

(** C5. A handle constructed with [interrupts=False] is never stopped,
    whatever calls follow: [is_stopped()] returns [False], and
    [check_status], [started_job] and [finished_job] return normally on
    every job set whose handle it is.  In every world a client can build, a
    stopped handle is one that interrupts. *)
Theorem non_interrupting_never_stopped w n ops :
  let h := length (heap w) in
  let w' := run ops (after (Construct.TaskHandle n false) w) in
  (∃ th, heap w' !! h = Some (OTaskHandle th) ∧
         interrupts th = false ∧ stopped th = false) ∧
  TaskHandle.is_stopped h w' = (Return false, w') ∧
  (∀ j js,
     heap w' !! j = Some (OJobSet js) → handle js = h →
     JobSet.check_status j w' = (Return tt, w') ∧
     (∀ m, result (JobSet.started_job j m) w' = Return tt) ∧
     result (JobSet.finished_job j) w' = Return tt) ∧
  (∀ w0 r th,
     reachable w0 → heap w0 !! r = Some (OTaskHandle th) →
     stopped th = true → interrupts th = true).
Proof.
  intros h w'.
  assert (∃ th, heap w' !! h = Some (OTaskHandle th) ∧
                interrupts th = false ∧ stopped th = false)
    as (th & H & I & S).
  { destruct (evolves_handle _ w' h (mkTaskHandle n false false [] [])
                (evolves_run ops _)) as (th & H & I & _ & S).
    - cbn. by apply list_lookup_middle.
    - exists th. split; [done |]. split; [done |].
      destruct (stopped th); [| done]. by destruct S. }
  split; [by exists th |]. split; [| split].
  - rewrite (is_stopped_eq _ _ _ H). by rewrite S.
  - intros j js Hj Hh. subst h. rewrite <- Hh in H. repeat split.
    + rewrite (check_status_eq _ _ _ _ Hj H). by rewrite S.
    + intros m. unfold result.
      rewrite (started_job_eq _ _ _ _ m Hj H). by rewrite S.
    + unfold result. rewrite (finished_job_eq _ _ _ _ Hj H). by rewrite S.
  - intros w0 r th0 R H0. exact (reachable_good _ R _ _ H0).
Qed.

(** The scenario of [deaf_world], whose handle was built with
    [interrupts=False] in the empty world: two calls of [stop()] later the
    job set still accepts jobs. *)
Lemma non_interrupting_never_stopped_witness :
  let w' := run [AddObserver 0 (Obs 7 []); CreateJobset 0 "JobSet" (Some 4);
                 Stop 0; Stop 0]
              (after (Construct.TaskHandle "Task" false) empty_world) in
  TaskHandle.is_stopped 0 w' = (Return false, w') ∧
  JobSet.check_status 1 w' = (Return tt, w') ∧
  result (JobSet.finished_job 1) w' = Return tt.
Proof.
  pose proof (non_interrupting_never_stopped empty_world "Task"
                [AddObserver 0 (Obs 7 []); CreateJobset 0 "JobSet" (Some 4);
                 Stop 0; Stop 0]) as (_ & H1 & H2 & _).
  split; [exact H1 |].
  destruct (H2 1%nat (mkJobSet 0 "JobSet" (Some 4) 0 None) eq_refl eq_refl)
    as (Hc & _ & Hf).
  split; [exact Hc | exact Hf].
Defined.

(** * Observer notification *)

(** C2, as stated, fails twice.  On a handle built with [interrupts=False],
    [stop()] calls no observer; and once a handle is stopped, [started_job]
    raises before it notifies anyone. *)
Lemma informs_all_counterexample :
  ¬ informs_all (TaskHandle.stop 0) 0 deaf_world ∧
  ¬ informs_all (JobSet.started_job 1 "b") 0 stopped_world.
Proof.
  split; intros (th & H & C); vm_compute in H; injection H as <-;
    vm_compute in C; discriminate C.
Qed.

(** * Progress *)

(** C3.  The code departs from the claim.  [increment()] is documented as
    the way to grow a number of jobs that is not known ahead of time, and
    [None] is the count of a job set created without one; yet on such a job
    set [self.count += 1] raises [TypeError], so that three calls in a row
    do not succeed. *)
Lemma increment_unbounded_counterexample :
  result (JobSet.increment 1) unbounded_world = Raise TypeError ∧
  result (JobSet.increment 1 ;; JobSet.increment 1 ;; JobSet.increment 1)
    unbounded_world ≠ Return tt.
Proof. split; [reflexivity | vm_compute; discriminate]. Qed.

(** The rest of that scenario is as the claim has it.  On a job set whose
    count is [None], [get_percent_done()] returns [None]; while its handle
    is not stopped, [started_job] and [finished_job] return normally,
    [finished_job] adds one to [done], and the count stays [None], so that
    the percentage is [None] afterwards too. *)
Theorem unbounded_job_set w j js th :
  heap w !! j = Some (OJobSet js) →
  count js = None →
  heap w !! handle js = Some (OTaskHandle th) →
  stopped th = false →
  JobSet.get_percent_done j w = (Return None, w) ∧
  (∀ n, ∃ w',
     JobSet.started_job j n w = (Return tt, w') ∧
     heap w' !! j = Some (OJobSet (set_job_name (Some n) js)) ∧
     JobSet.get_percent_done j w' = (Return None, w')) ∧
  (∃ w',
     JobSet.finished_job j w = (Return tt, w') ∧
     heap w' !! j =
       Some (OJobSet (set_job_name None (set_done (done js + 1) js))) ∧
     JobSet.get_percent_done j w' = (Return None, w')).
Proof.
  intros Hj C Hh S.
  assert (j ≠ handle js) as Hne by (intros E; rewrite <- E in Hh; congruence).
  assert (j < length (heap w))%nat as Hlt by (by eapply lookup_lt_Some).
  split; [| split].
  - by rewrite (get_percent_done_eq _ _ _ Hj), C.
  - intros n. eexists. split.
    + rewrite (started_job_eq _ _ _ _ n Hj Hh), S. reflexivity.
    + assert (heap
                (mkWorld
                   (<[handle js := OTaskHandle (informed th)]>
                      (<[j := OJobSet (set_job_name (Some n) js)]> (heap w)))
                   (calls w ++ notified th)) !! j
              = Some (OJobSet (set_job_name (Some n) js))) as Hj'.
      { cbn. rewrite list_lookup_insert_ne by done.
        by apply list_lookup_insert_eq. }
      split; [exact Hj' |].
      rewrite (get_percent_done_eq _ _ _ Hj'). cbn. by rewrite C.
  - eexists. split.
    + rewrite (finished_job_eq _ _ _ _ Hj Hh), S. reflexivity.
    + assert (heap
                (mkWorld
                   (<[j := OJobSet (set_job_name None (set_done (done js + 1) js))]>
                      (<[handle js := OTaskHandle (informed th)]> (heap w)))
                   (calls w ++ notified th)) !! j
              = Some (OJobSet (set_job_name None (set_done (done js + 1) js))))
        as Hj'.
      { cbn. apply list_lookup_insert_eq. by rewrite length_insert. }
      split; [exact Hj' |].
      rewrite (get_percent_done_eq _ _ _ Hj'). cbn. by rewrite C.
Qed.

(** In [unbounded_world] the percentage is [None], and a job can be started
    and finished: [done] becomes 1 and the percentage is [None] still. *)
Lemma unbounded_job_set_witness :
  JobSet.get_percent_done 1 unbounded_world = (Return None, unbounded_world) ∧
  ∃ w', JobSet.finished_job 1 unbounded_world = (Return tt, w') ∧
        heap w' !! 1%nat = Some (OJobSet (mkJobSet 0 "JobSet" None 1 None)) ∧
        JobSet.get_percent_done 1 w' = (Return None, w').
Proof.
  pose proof (unbounded_job_set unbounded_world 1
                (mkJobSet 0 "JobSet" None 0 None)
                (mkTaskHandle "Task" true false [1%nat] [])
                eq_refl eq_refl eq_refl eq_refl) as (Hp & _ & w' & Hf & Hd & Hp').
  split; [exact Hp |].
  exists w'. split; [exact Hf |]. split; [exact Hd | exact Hp'].
Defined.

Lemma percent_range d c : 0 ≤ d → 0 < c → 0 ≤ Z.min (d * 100 / c) 100 ≤ 100.
Proof.
  intros Hd Hc. split; [| lia].
  apply Z.min_glb; [| lia]. apply Z.div_pos; lia.
Qed.

Lemma percent_full d c : 0 < c → c ≤ d → Z.min (d * 100 / c) 100 = 100.
Proof.
  intros Hc Hd. apply Z.min_r.
  transitivity (c * 100 / c).
  - rewrite Z.mul_comm, Z.div_mul by lia. lia.
  - apply Z.div_le_mono; lia.
Qed.

Lemma percent_mono d1 d2 c :
  0 < c → d1 ≤ d2 → Z.min (d1 * 100 / c) 100 ≤ Z.min (d2 * 100 / c) 100.
Proof.
  intros Hc Hd. apply Z.min_le_compat_r. apply Z.div_le_mono; lia.
Qed.

(** C4. For every job set a client can reach, [get_percent_done()] returns
    [None] exactly when the count is [None] or not positive; otherwise it
    returns [done * 100 // count] capped at 100, which lies between 0 and
    100, is 100 as soon as [done >= count], and does not decrease when
    [done] grows under the same count. *)
Theorem percent_done_bounds w j js :
  reachable w →
  heap w !! j = Some (OJobSet js) →
  ∃ p,
    JobSet.get_percent_done j w = (Return p, w) ∧
    (p = None ↔ count js = None ∨ ∃ c, count js = Some c ∧ c ≤ 0) ∧
    ∀ c,
      count js = Some c → 0 < c →
      p = Some (Z.min (done js * 100 / c) 100) ∧
      0 ≤ Z.min (done js * 100 / c) 100 ≤ 100 ∧
      (c ≤ done js → p = Some 100) ∧
      ∀ w2 j2 js2,
        heap w2 !! j2 = Some (OJobSet js2) →
        count js2 = Some c → done js ≤ done js2 →
        ∃ p2, JobSet.get_percent_done j2 w2 = (Return (Some p2), w2) ∧
              Z.min (done js * 100 / c) 100 ≤ p2.
Proof.
  intros R Hj. pose proof (reachable_good _ R _ _ Hj) as Hd. cbn in Hd.
  eexists. split; [apply (get_percent_done_eq _ _ _ Hj) |]. split.
  - destruct (count js) as [c|] eqn:C; [| by intuition].
    destruct (0 <? c) eqn:Hc.
    + apply Z.ltb_lt in Hc. split; [done |].
      intros [? | (c' & [= <-] & ?)]; [done | lia].
    + apply Z.ltb_ge in Hc. split; [| done]. intros _. right. by exists c.
  - intros c C Hc. rewrite C.
    assert ((0 <? c) = true) as -> by (by apply Z.ltb_lt).
    split; [done |]. split; [by apply percent_range |]. split.
    + intros Hfull. by rewrite percent_full.
    + intros w2 j2 js2 Hj2 C2 Hle. eexists. split.
      * rewrite (get_percent_done_eq _ _ _ Hj2), C2.
        assert ((0 <? c) = true) as -> by (by apply Z.ltb_lt). reflexivity.
      * by apply percent_mono.
Qed.

(** In [phase1_world], built from the empty world, one job of two is done:
    the percentage is 50. *)
Lemma percent_done_bounds_witness :
  ∃ p, JobSet.get_percent_done 1 phase1_world = (Return p, phase1_world) ∧
       p = Some 50.
Proof.
  assert (reachable phase1_world) as R by (eexists; reflexivity).
  destruct (percent_done_bounds phase1_world 1
              (mkJobSet 0 "Phase1" (Some 2) 1 None) R eq_refl)
    as (p & Hp & _ & H).
  exists p. split; [exact Hp |].
  destruct (H 2 eq_refl eq_refl) as [-> _]. reflexivity.
Defined.

(** * Order of the cancellation check *)

Lemma interrupted_at_check {A} (rest : M A) w j :
  uninterrupted rest →
  result (JobSet.check_status j ;; rest) w = Raise InterruptedTaskError →
  after (JobSet.check_status j ;; rest) w = w.
Proof.
  intros Hrest. pose proof (check_status_world w j) as Hw.
  unfold result, after, mbind, M_bind in *.
  destruct (JobSet.check_status j w) as [[[]|e] w1]; cbn in *; subst w1.
  - intros E. by destruct (Hrest w).
  - done.
Qed.

(** * Job set creation *)



(** * The null objects *)

(** C8. Every method of [NullTaskHandle] and [NullJobSet] returns normally
    on every receiver in every world: [is_stopped()] returns [False],
    [get_percent_done()] returns [None], [create_jobset()] returns a
    reference to a newly allocated [NullJobSet], and every other method
    returns with the world, heap and call log alike, as it was, so that an
    observer handed to [add_observer] is kept nowhere and called by no
    one. *)
Theorem null_objects_inert w self observer n c :
  NullTaskHandle.is_stopped self w = (Return false, w) ∧
  NullTaskHandle.stop self w = (Return tt, w) ∧
  NullTaskHandle.add_observer self observer w = (Return tt, w) ∧
  NullTaskHandle.get_jobsets self w = (Return [], w) ∧
  NullTaskHandle.current_jobset self w = (Return None, w) ∧
  (let j := length (heap w) in
   let w' := after (NullTaskHandle.create_jobset self n c) w in
   NullTaskHandle.create_jobset self n c w = (Return j, w') ∧
   heap w !! j = None ∧
   heap w' = heap w ++ [ONullJobSet] ∧
   calls w' = calls w) ∧
  NullJobSet.started_job self n w = (Return tt, w) ∧
  NullJobSet.finished_job self w = (Return tt, w) ∧
  NullJobSet.check_status self w = (Return tt, w) ∧
  NullJobSet.increment self w = (Return tt, w) ∧
  NullJobSet.get_percent_done self w = (Return None, w) ∧
  NullJobSet.get_active_job_name self w = (Return None, w) ∧
  NullJobSet.get_name self w = (Return None, w) ∧
  calls (after (NullTaskHandle.add_observer self observer ;;
                NullTaskHandle.stop self ;;
                j ← NullTaskHandle.create_jobset self n c;
                NullJobSet.started_job j n ;;
                NullJobSet.finished_job j) w) = calls w.
Proof.
  repeat split; try reflexivity. by apply lookup_ge_None.
Qed.

(** * Growing the count *)

(** C9. On a job set whose count is a number, one call of [increment()]
    returns normally and adds exactly one to the count; [done], the other
    fields, every other object and the call log stay as they were. *)
Theorem increment_adds_one w j js c :
  heap w !! j = Some (OJobSet js) →
  count js = Some c →
  ∃ w' js',
    JobSet.increment j w = (Return tt, w') ∧
    heap w' !! j = Some (OJobSet js') ∧
    count js' = Some (c + 1) ∧
    done js' = done js ∧
    handle js' = handle js ∧ name js' = name js ∧
    job_name js' = job_name js ∧
    (∀ i, i ≠ j → heap w' !! i = heap w !! i) ∧
    calls w' = calls w.
Proof.
  intros Hj C. exists (put j (OJobSet (set_count (Some (c + 1)) js)) w).
  exists (set_count (Some (c + 1)) js).
  split; [by rewrite (increment_eq _ _ _ Hj), C |].
  split; [by eapply put_lookup |].
  repeat split. intros i Hi. by apply put_lookup_ne.
Qed.

(** In [phase1_world] the count goes from 2 to 3 with [done] still 1, so
    that the percentage falls from 50 to 33. *)
Lemma increment_adds_one_witness :
  ∃ w', JobSet.increment 1 phase1_world = (Return tt, w') ∧
        heap w' !! 1%nat = Some (OJobSet (mkJobSet 0 "Phase1" (Some 3) 1 None)) ∧
        JobSet.get_percent_done 1 w' = (Return (Some 33), w').
Proof.
  destruct (increment_adds_one phase1_world 1
              (mkJobSet 0 "Phase1" (Some 2) 1 None) 2 eq_refl eq_refl)
    as (w' & js' & Hi & Hl & _).
  exists w'. split; [exact Hi |].
  assert (w' = put 1 (OJobSet (mkJobSet 0 "Phase1" (Some 3) 1 None)) phase1_world)
    as -> by (injection Hi as <-; reflexivity).
  split; reflexivity.
Defined.

(** * Where cancellation is polled *)



(** * Further properties of the module *)

(** ** Composing pointwise relations *)

Section Pointwise.
Context (S : Obj → Obj → Prop) (N : Obj → Prop) `{!ObjRel S N}.

Lemma pointwise_refl w : pointwise S N w w.
Proof.
  split.
  - intros i o H. exists o. split; [done | apply obj_rel_refl].
  - intros i o H1 H2. congruence.
Qed.

Lemma pointwise_trans w1 w2 w3 :
  pointwise S N w1 w2 → pointwise S N w2 w3 → pointwise S N w1 w3.
Proof.
  intros [O1 N1] [O2 N2]. split.
  - intros i o H. destruct (O1 _ _ H) as (o' & H' & S1).
    destruct (O2 _ _ H') as (o'' & H'' & S2).
    exists o''. split; [done | by eapply obj_rel_trans].
  - intros i o'' H1 H3. destruct (heap w2 !! i) as [o'|] eqn:H2.
    + destruct (O2 _ _ H2) as (o3 & H3' & S2).
      assert (o3 = o'') by congruence. subst o3.
      eapply obj_rel_new; [exact S2 | by eapply N1].
    + by eapply N2.
Qed.

Lemma pointwise_put w r o o' :
  heap w !! r = Some o → S o o' → pointwise S N w (put r o' w).
Proof.
  intros H HS. split; cbn.
  - intros i o1 H1. destruct (decide (r = i)) as [->|Hne].
    + exists o'. split; [| congruence].
      apply list_lookup_insert_eq. by eapply lookup_lt_Some.
    + exists o1. split; [by rewrite list_lookup_insert_ne | apply obj_rel_refl].
  - intros i o1 H1 H2. destruct (decide (r = i)) as [->|Hne]; [congruence |].
    rewrite list_lookup_insert_ne in H2; congruence.
Qed.

Lemma pointwise_alloc w o :
  N o → pointwise S N w (mkWorld (heap w ++ [o]) (calls w)).
Proof.
  intros G. split; cbn.
  - intros i o1 H1. exists o1. split; [| apply obj_rel_refl].
    by apply lookup_app_l_Some.
  - intros i o1 H1 H2. apply lookup_ge_None in H1.
    rewrite lookup_app_r in H2 by done.
    destruct (i - length (heap w))%nat; cbn in H2; [congruence | done].
Qed.

Lemma pointwise_same_heap w w' : heap w' = heap w → pointwise S N w w'.
Proof.
  intros E. split; rewrite E.
  - intros i o H. exists o. split; [done | apply obj_rel_refl].
  - congruence.
Qed.

Local Abbreviation R := (pointwise S N).

Lemma steps_ret {A} (a : A) : steps R (mret a).
Proof. intros w. apply pointwise_refl. Qed.

Lemma steps_raise {A} e : steps R (@raise A e).
Proof. intros w. apply pointwise_refl. Qed.

Lemma steps_no_method {A} : steps R (@no_method A).
Proof. apply steps_raise. Qed.

Lemma steps_bind {A B} (m : M A) (f : A → M B) :
  steps R m → (∀ a, steps R (f a)) → steps R (m ≫= f).
Proof.
  intros Hm Hf w. specialize (Hm w). unfold after, mbind, M_bind in *.
  destruct (m w) as [[a|e] w']; cbn in *; [| done].
  eapply pointwise_trans; [exact Hm | apply Hf].
Qed.

Lemma steps_deref r : steps R (deref r).
Proof.
  intros w. unfold after, deref. destruct (heap w !! r); apply pointwise_refl.
Qed.

Lemma steps_self_TaskHandle r : steps R (self_TaskHandle r).
Proof.
  intros w. unfold after. rewrite self_TaskHandle_world. apply pointwise_refl.
Qed.

Lemma steps_self_JobSet r : steps R (self_JobSet r).
Proof.
  intros w. unfold after. rewrite self_JobSet_world. apply pointwise_refl.
Qed.

Lemma steps_alloc o : N o → steps R (alloc o).
Proof. intros G w. by apply pointwise_alloc. Qed.

Lemma steps_log_call i : steps R (log_call i).
Proof. intros w. by apply pointwise_same_heap. Qed.

Lemma steps_setattr_TaskHandle r f :
  (∀ th, S (OTaskHandle th) (OTaskHandle (f th))) →
  steps R (setattr_TaskHandle r f).
Proof.
  intros Hf w. unfold after.
  destruct (self_TaskHandle r w) as [[th|e] w'] eqn:E.
  - apply self_TaskHandle_inv in E as [-> H].
    rewrite (setattr_TaskHandle_eq _ _ _ _ H). by eapply pointwise_put.
  - unfold setattr_TaskHandle. rewrite (bind_Raise _ _ _ _ _ E). cbn.
    pose proof (self_TaskHandle_world w r) as Hw. rewrite E in Hw. cbn in Hw.
    subst w'. apply pointwise_refl.
Qed.

Lemma steps_setattr_JobSet r f :
  (∀ js, S (OJobSet js) (OJobSet (f js))) →
  steps R (setattr_JobSet r f).
Proof.
  intros Hf w. unfold after.
  destruct (self_JobSet r w) as [[js|e] w'] eqn:E.
  - apply self_JobSet_inv in E as [-> H].
    rewrite (setattr_JobSet_eq _ _ _ _ H). by eapply pointwise_put.
  - unfold setattr_JobSet. rewrite (bind_Raise _ _ _ _ _ E). cbn.
    pose proof (self_JobSet_world w r) as Hw. rewrite E in Hw. cbn in Hw.
    subst w'. apply pointwise_refl.
Qed.

Lemma steps_for_each {A} (xs : list A) (body : A → M unit) :
  (∀ x, steps R (body x)) → steps R (for_each xs body).
Proof.
  intros Hb. induction xs as [|x xs IH]; cbn.
  - apply steps_ret.
  - apply steps_bind; [apply Hb | intros _; exact IH].
Qed.

Lemma steps_virtual {A} r (m1 m2 m3 m4 : M A) :
  steps R m1 → steps R m2 → steps R m3 → steps R m4 →
  steps R (virtual r m1 m2 m3 m4).
Proof.
  intros H1 H2 H3 H4. unfold virtual.
  apply steps_bind; [apply steps_deref | intros []; assumption].
Qed.

Lemma steps_void {A} (m : M A) : steps R m → steps R (void m).
Proof. intros H. apply steps_bind; [done | intros _; apply steps_ret]. Qed.

Lemma steps_run (ok : Op → Prop) :
  (∀ op, ok op → steps R (exec op)) →
  ∀ ops w, Forall ok ops → R w (run ops w).
Proof.
  intros Hstep ops. induction ops as [|op ops IH]; intros w Hok; cbn.
  - apply pointwise_refl.
  - inversion Hok; subst.
    eapply pointwise_trans; [by apply Hstep | by apply IH].
Qed.

End Pointwise.

(** Take a method apart into its primitive steps. *)
Create HintDb steps discriminated.

Ltac obj_rel := try match goal with |- ObjRel _ _ => exact _ end.

Ltac steps_auto :=
  repeat first
    [ apply steps_ret; obj_rel
    | apply steps_raise; obj_rel
    | apply steps_no_method; obj_rel
    | apply steps_deref; obj_rel
    | apply steps_self_TaskHandle; obj_rel
    | apply steps_self_JobSet; obj_rel
    | apply steps_log_call; obj_rel
    | apply steps_alloc; obj_rel; by (cbn; auto with steps)
    | apply steps_setattr_TaskHandle; obj_rel; by (intros ?; cbn; auto with steps)
    | apply steps_setattr_JobSet; obj_rel; by (intros ?; cbn; auto with steps)
    | apply steps_for_each; obj_rel; intros ?
    | apply steps_virtual; obj_rel
    | apply steps_void; obj_rel
    | match goal with
      | |- steps _ (if ?b then _ else _) => destruct b
      | |- steps _ (match ?x with _ => _ end) => destruct x
      end
    | apply steps_bind; obj_rel; [| intros ?] ].

(** ** Who lists which job set *)

#[export] Instance frame_rel : ObjRel obj_frame obj_unlisted.
Proof.
  split.
  - intros []; cbn; auto.
  - intros [t1|j1| |] [t2|j2| |] [t3|j3| |]; cbn; try tauto; congruence.
  - intros [t1|j1| |] [t2|j2| |]; cbn; try tauto; congruence.
Qed.

Lemma frame_inform_observers r : steps frame (TaskHandle._inform_observers r).
Proof.
  unfold frame, TaskHandle._inform_observers, TaskHandle.call_observer,
    TaskHandle.add_observer.
  steps_auto.
Qed.

Lemma frame_exec op : creates_no_jobset op → steps frame (exec op).
Proof.
  unfold frame. destruct op; cbn [exec creates_no_jobset]; intros Hop;
    try contradiction;
    unfold Construct.TaskHandle, Construct.NullTaskHandle, Construct.JobSet,
      Construct.NullJobSet,
      TaskHandle.stop, TaskHandle.current_jobset, TaskHandle.add_observer,
      TaskHandle.get_jobsets, Dispatch.is_stopped, TaskHandle.is_stopped,
      NullTaskHandle.stop, NullTaskHandle.current_jobset,
      NullTaskHandle.add_observer, NullTaskHandle.get_jobsets,
      NullTaskHandle.is_stopped,
      JobSet.started_job, JobSet.finished_job, JobSet.check_status,
      JobSet.get_active_job_name, JobSet.get_percent_done, JobSet.get_name,
      JobSet.increment, Dispatch._inform_observers, Dispatch.is_stopped,
      TaskHandle.is_stopped, NullTaskHandle.is_stopped,
      NullTaskHandle._inform_observers,
      NullJobSet.started_job, NullJobSet.finished_job, NullJobSet.check_status,
      NullJobSet.get_active_job_name, NullJobSet.get_percent_done,
      NullJobSet.get_name, NullJobSet.increment;
    steps_auto; apply frame_inform_observers.
Qed.

Lemma frame_owned w w' : frame w w' → owned w → owned w'.
Proof.
  intros [O Nw] Hw h th' Hh'.
  destruct (heap w !! h) as [o|] eqn:Hh.
  - destruct (O _ _ Hh) as (o' & Ho' & HS).
    assert (o' = OTaskHandle th') as -> by congruence.
    destruct o as [th| | |]; try done. cbn in HS. rewrite HS.
    destruct (Hw _ _ Hh) as [Hnd Hown]. split; [done |].
    intros j Hj. destruct (Hown j Hj) as (js & Hjs & Hhandle).
    destruct (O _ _ Hjs) as ([|js'| |] & Hjs' & HS'); try done.
    exists js'. split; [done |]. cbn in HS'. congruence.
  - pose proof (Nw _ _ Hh Hh') as Hnew. cbn in Hnew. rewrite Hnew.
    split; [constructor |]. intros j Hj. by apply elem_of_nil in Hj.
Qed.

Lemma owned_create_jobset w h th n c :
  heap w !! h = Some (OTaskHandle th) →
  owned w → owned (after (TaskHandle.create_jobset h n c) w).
Proof.
  intros H Hw. unfold after. rewrite (create_jobset_eq _ _ _ n c H). cbn [snd].
  pose proof (lookup_lt_Some _ _ _ H) as Hlt.
  set (j := length (heap w)). set (new := OJobSet (mkJobSet h n c 0 None)).
  assert (∀ i js, heap w !! i = Some (OJobSet js) →
            (<[h := OTaskHandle (informed (set_job_sets (job_sets th ++ [j]) th))]>
               (heap w ++ [new])) !! i = Some (OJobSet js)) as Hkeep.
  { intros i js Hi. assert (h ≠ i) by (intros ->; congruence).
    rewrite list_lookup_insert_ne by done. by apply lookup_app_l_Some. }
  destruct (Hw _ _ H) as [Hnd Hown].
  intros h' th' Hh'. cbn in Hh'.
  destruct (decide (h = h')) as [<-|Hne].
  - rewrite list_lookup_insert_eq in Hh' by (rewrite length_app; lia).
    injection Hh' as <-. cbn. split.
    + apply NoDup_app. split; [done |]. split; [| apply NoDup_singleton].
      intros i Hi Hi'. apply list_elem_of_singleton in Hi'. subst i.
      destruct (Hown _ Hi) as (js & Hjs & _).
      apply lookup_lt_Some in Hjs. subst j. lia.
    + intros i Hi. apply elem_of_app in Hi as [Hi|Hi].
      * destruct (Hown _ Hi) as (js & Hjs & Hhandle).
        exists js. split; [by apply Hkeep | done].
      * apply list_elem_of_singleton in Hi. subst i.
        exists (mkJobSet h n c 0 None). split; [| done].
        rewrite list_lookup_insert_ne by (subst j; lia).
        by apply list_lookup_middle.
  - rewrite list_lookup_insert_ne in Hh' by done.
    assert (heap w !! h' = Some (OTaskHandle th')) as Hold.
    { destruct (decide (h' < length (heap w))%nat) as [Hl|Hl].
      - by rewrite lookup_app_l in Hh'.
      - rewrite lookup_app_r in Hh' by lia.
        destruct (h' - length (heap w))%nat; cbn in Hh'; [by subst new | done]. }
    destruct (Hw _ _ Hold) as [Hnd' Hown']. split; [done |].
    intros i Hi. destruct (Hown' _ Hi) as (js & Hjs & Hhandle).
    exists js. split; [by apply Hkeep | done].
Qed.

Lemma owned_exec op w : owned w → owned (after (exec op) w).
Proof.
  intros Hw.
  destruct op as [ | | | | | | | | | r n c | | | | | | | ];
    try (eapply frame_owned; [by apply frame_exec | done]).
  cbn [exec]. destruct (heap w !! r) as [[th| | |]|] eqn:Hr.
  - unfold after. rewrite (virtual_TaskHandle _ _ _ _ _ _ _ Hr).
    pose proof (owned_create_jobset _ _ _ n c Hr Hw) as Hc.
    unfold after, void, mbind, M_bind in *.
    by destruct (TaskHandle.create_jobset r n c w) as [[] ?].
  - unfold after. rewrite (virtual_JobSet _ _ _ _ _ _ _ Hr). exact Hw.
  - unfold after. rewrite (virtual_NullTaskHandle _ _ _ _ _ _ Hr).
    eapply frame_owned; [| exact Hw].
    apply (pointwise_alloc _ _ w ONullJobSet). exact I.
  - unfold after. rewrite (virtual_NullJobSet _ _ _ _ _ _ Hr). exact Hw.
  - unfold after, virtual, deref, mbind, M_bind. by rewrite Hr.
Qed.

Lemma owned_run ops : ∀ w, owned w → owned (run ops w).
Proof.
  induction ops as [|op ops IH]; intros w Hw; cbn; [done |].
  apply IH. by apply owned_exec.
Qed.

Lemma reachable_owned w : reachable w → owned w.
Proof.
  intros [ops ->]. apply owned_run. intros h th H. cbn in H.
  by rewrite lookup_nil in H.
Qed.

(** ** How the count of a job set moves *)

Lemma count_le_refl c : count_le c c.
Proof. destruct c; cbn; [lia | done]. Qed.

#[local] Hint Resolve count_le_refl : steps.

#[export] Instance count_rel : ObjRel obj_count (λ _, True).
Proof.
  split.
  - intros []; cbn; auto using count_le_refl.
  - intros [t1|j1| |] [t2|j2| |] [t3|j3| |]; cbn; try tauto.
    destruct (count j1), (count j2), (count j3); cbn; try tauto; lia.
  - done.
Qed.

Lemma counts_increment r : steps counts (JobSet.increment r).
Proof.
  intros w. unfold after.
  destruct (heap w !! r) as [[|js| |]|] eqn:Hr;
    try (unfold JobSet.increment, self_JobSet, deref, mbind, M_bind;
         rewrite Hr; apply pointwise_refl; exact _).
  rewrite (increment_eq _ _ _ Hr).
  destruct (count js) as [c|] eqn:C; [| apply pointwise_refl; exact _].
  eapply pointwise_put; [exact _ | exact Hr |]. cbn. rewrite C. cbn. lia.
Qed.

Lemma counts_inform_observers r : steps counts (TaskHandle._inform_observers r).
Proof.
  unfold counts, TaskHandle._inform_observers, TaskHandle.call_observer,
    TaskHandle.add_observer.
  steps_auto.
Qed.

Lemma counts_exec op : steps counts (exec op).
Proof.
  destruct op; cbn [exec];
    try (apply steps_virtual; try exact _; try apply counts_increment);
    unfold counts;
    unfold Construct.TaskHandle, Construct.NullTaskHandle, Construct.JobSet,
      Construct.NullJobSet,
      TaskHandle.stop, TaskHandle.current_jobset, TaskHandle.add_observer,
      TaskHandle.get_jobsets, TaskHandle.create_jobset, Construct.JobSet,
      NullTaskHandle.stop, NullTaskHandle.current_jobset,
      NullTaskHandle.add_observer, NullTaskHandle.get_jobsets,
      NullTaskHandle.create_jobset, Construct.NullJobSet,
      JobSet.started_job, JobSet.finished_job, JobSet.check_status,
      JobSet.get_active_job_name, JobSet.get_percent_done, JobSet.get_name,
      Dispatch._inform_observers, Dispatch.is_stopped,
      TaskHandle.is_stopped, NullTaskHandle.is_stopped,
      NullTaskHandle._inform_observers,
      NullJobSet.started_job, NullJobSet.finished_job, NullJobSet.check_status,
      NullJobSet.get_active_job_name, NullJobSet.get_percent_done,
      NullJobSet.get_name, NullJobSet.increment;
    steps_auto; apply counts_inform_observers.
Qed.

Lemma counts_run ops w : counts w (run ops w).
Proof.
  apply (steps_run _ _ (λ _, True)); [intros op _; apply counts_exec |].
  by apply Forall_true.
Qed.

(** ** The job sets of a handle *)

(** X1. In every world a client can build, [get_jobsets()] on a handle
    returns references to job sets whose handle it is, none of them twice,
    and [current_jobset()] returns the last of them, or [None] when there
    are none. *)
Theorem job_sets_owned w h th :
  reachable w →
  heap w !! h = Some (OTaskHandle th) →
  ∃ l,
    TaskHandle.get_jobsets h w = (Return l, w) ∧
    NoDup l ∧
    (∀ j, j ∈ l → ∃ js, heap w !! j = Some (OJobSet js) ∧ handle js = h) ∧
    TaskHandle.current_jobset h w = (Return (last l), w) ∧
    (last l = None ↔ l = []).
Proof.
  intros R H. destruct (reachable_owned _ R _ _ H) as [Hnd Hown].
  exists (job_sets th). split; [| split; [done | split; [done | split]]].
  - unfold TaskHandle.get_jobsets. by run_with (self_TaskHandle_eq _ _ _ H).
  - unfold TaskHandle.current_jobset. by run_with (self_TaskHandle_eq _ _ _ H).
  - apply last_None.
Qed.

(** In [two_handles_world] handle 0 lists job set 2 only, which is its
    own. *)
Lemma job_sets_owned_witness :
  ∃ l, TaskHandle.get_jobsets 0 two_handles_world = (Return l, two_handles_world) ∧
       ∀ j, j ∈ l → ∃ js, heap two_handles_world !! j = Some (OJobSet js) ∧
                          handle js = 0%nat.
Proof.
  assert (reachable two_handles_world) as R by (eexists; reflexivity).
  destruct (job_sets_owned two_handles_world 0
              (mkTaskHandle "A" true false [2%nat] []) R eq_refl)
    as (l & Hl & _ & Hown & _).
  exists l. split; [exact Hl | exact Hown].
Defined.

(** X2. The current job set is the last one created, not the last one
    active: whatever calls other than [create_jobset] are made, on any
    object, [get_jobsets()] and [current_jobset()] of a handle return what
    they returned before. *)
Theorem current_jobset_is_last_created w h th ops :
  heap w !! h = Some (OTaskHandle th) →
  Forall creates_no_jobset ops →
  let w' := run ops w in
  TaskHandle.get_jobsets h w' = (Return (job_sets th), w') ∧
  TaskHandle.current_jobset h w' = (Return (last (job_sets th)), w').
Proof.
  intros H Hops w'.
  destruct (steps_run _ _ creates_no_jobset frame_exec ops w Hops) as [O _].
  destruct (O _ _ H) as ([th'| | |] & H' & HS); try done. cbn in HS.
  fold w' in H'. split.
  - unfold TaskHandle.get_jobsets. run_with (self_TaskHandle_eq _ _ _ H').
    by rewrite HS.
  - unfold TaskHandle.current_jobset. run_with (self_TaskHandle_eq _ _ _ H').
    by rewrite HS.
Qed.

(** In [phase1_world], a job started and finished on job set 1, a stop and
    a directly constructed job set later, job set 1 is current still. *)
Lemma current_jobset_is_last_created_witness :
  let w' := run [StartedJob 1 "b"; FinishedJob 1; Stop 0;
                 NewJobSet 0 "loose" None] phase1_world in
  TaskHandle.current_jobset 0 w' = (Return (Some 1%nat), w').
Proof.
  refine (proj2 (current_jobset_is_last_created phase1_world 0
                   (mkTaskHandle "Task" true false [1%nat] [Obs 7 []])
                   [StartedJob 1 "b"; FinishedJob 1; Stop 0;
                    NewJobSet 0 "loose" None] eq_refl _)).
  repeat constructor.
Defined.

(** ** What no call ever undoes *)

(** X3. Whatever calls a client makes, every object stays at its address
    with its class.  A handle keeps its name and its [interrupts] flag, is
    not un-stopped, and its [job_sets] and [observers] only grow at the end.
    A job set keeps its handle and its name, its [done] does not decrease,
    and its count stays [None] or does not decrease.  The call log only
    grows. *)
Theorem nothing_is_undone w ops :
  let w' := run ops w in
  (∀ h th, heap w !! h = Some (OTaskHandle th) →
     ∃ th', heap w' !! h = Some (OTaskHandle th') ∧
            th_name th' = th_name th ∧
            interrupts th' = interrupts th ∧
            (stopped th = true → stopped th' = true) ∧
            job_sets th `prefix_of` job_sets th' ∧
            observers th `prefix_of` observers th') ∧
  (∀ j js, heap w !! j = Some (OJobSet js) →
     ∃ js', heap w' !! j = Some (OJobSet js') ∧
            handle js' = handle js ∧
            name js' = name js ∧
            done js ≤ done js' ∧
            count_le (count js) (count js')) ∧
  (∀ r, heap w !! r = Some ONullTaskHandle → heap w' !! r = Some ONullTaskHandle) ∧
  (∀ r, heap w !! r = Some ONullJobSet → heap w' !! r = Some ONullJobSet) ∧
  calls w `prefix_of` calls w'.
Proof.
  intros w'. destruct (evolves_run ops w) as [O _ C].
  destruct (counts_run ops w) as [Oc _]. fold w' in O, C, Oc.
  split; [| split; [| split; [| split]]]; [| | | | exact C].
  - intros h th H. destruct (O _ _ H) as ([th'| | |] & H' & HS); try done.
    exists th'. cbn in HS. tauto.
  - intros j js H. destruct (O _ _ H) as ([|js'| |] & H' & HS); try done.
    destruct (Oc _ _ H) as (o & Ho & HSc).
    assert (o = OJobSet js') as -> by congruence.
    exists js'. cbn in HS, HSc. tauto.
  - intros r H. by destruct (O _ _ H) as ([| | |] & H' & HS).
  - intros r H. by destruct (O _ _ H) as ([| | |] & H' & HS).
Qed.

(** From [phase1_world]: two more jobs, a stop and an increment later,
    job set 1 is still "Phase1" of handle 0 and has not counted down. *)
Lemma nothing_is_undone_witness :
  let w' := run [StartedJob 1 "b"; FinishedJob 1; Increment 1; Stop 0]
              phase1_world in
  ∃ js', heap w' !! 1%nat = Some (OJobSet js') ∧
         handle js' = 0%nat ∧ name js' = "Phase1" ∧ 1 ≤ done js'.
Proof.
  destruct (nothing_is_undone phase1_world
              [StartedJob 1 "b"; FinishedJob 1; Increment 1; Stop 0])
    as (_ & Hjs & _).
  destruct (Hjs 1%nat (mkJobSet 0 "Phase1" (Some 2) 1 None) eq_refl)
    as (js' & Hl & Hh & Hn & Hd & _).
  exists js'. repeat split; assumption.
Defined.

(** X4. A job set created without a count never has one: whatever calls
    follow, [get_percent_done()] returns [None] and [increment()] raises
    [TypeError], leaving the world as it is. *)
Theorem percent_none_forever w j js ops :
  heap w !! j = Some (OJobSet js) →
  count js = None →
  let w' := run ops w in
  JobSet.get_percent_done j w' = (Return None, w') ∧
  JobSet.increment j w' = (Raise TypeError, w').
Proof.
  intros H C w'. destruct (counts_run ops w) as [Oc _].
  destruct (Oc _ _ H) as ([|js'| |] & H' & Hc); try done. fold w' in H'.
  cbn in Hc. rewrite C in Hc. destruct (count js') as [c|] eqn:C'; [done |].
  split.
  - by rewrite (get_percent_done_eq _ _ _ H'), C'.
  - by rewrite (increment_eq _ _ _ H'), C'.
Qed.

(** In [unbounded_world]: three attempts to increment and one finished job
    later, the percentage is [None] still. *)
Lemma percent_none_forever_witness :
  let w' := run [Increment 1; Increment 1; Increment 1; StartedJob 1 "a";
                 FinishedJob 1] unbounded_world in
  JobSet.get_percent_done 1 w' = (Return None, w').
Proof.
  exact (proj1 (percent_none_forever unbounded_world 1
                  (mkJobSet 0 "JobSet" None 0 None)
                  [Increment 1; Increment 1; Increment 1; StartedJob 1 "a";
                   FinishedJob 1] eq_refl eq_refl)).
Defined.

(** ** Registering observers *)

(** X5. [add_observer] on a handle, stopped or not, returns normally and
    calls no one; it puts the observer last in the handle's list and
    changes nothing else, so that the next notification calls it after the
    observers registered before it.  Nothing is checked against the list:
    an observer registered twice is called twice. *)
Theorem add_observer_registers_last w h th o :
  heap w !! h = Some (OTaskHandle th) →
  ∃ w',
    TaskHandle.add_observer h o w = (Return tt, w') ∧
    calls w' = calls w ∧
    heap w' !! h = Some (OTaskHandle (set_observers (observers th ++ [o]) th)) ∧
    (∀ i, i ≠ h → heap w' !! i = heap w !! i) ∧
    (∀ n c, calls (after (TaskHandle.create_jobset h n c) w') =
            calls w ++ notified th ++ [obs_id o]) ∧
    (∀ n c, calls (after (TaskHandle.add_observer h o ;;
                          TaskHandle.create_jobset h n c) w') =
            calls w ++ notified th ++ [obs_id o; obs_id o]).
Proof.
  intros H. eexists. split; [apply (add_observer_eq _ _ _ o H) |].
  pose proof (put_lookup _ _ _
                (OTaskHandle (set_observers (observers th ++ [o]) th)) H) as H'.
  split; [done |]. split; [exact H' |]. split; [| split].
  - intros i Hi. by apply put_lookup_ne.
  - intros n c. unfold after. rewrite (create_jobset_eq _ _ _ n c H'). cbn.
    unfold notified. cbn. by rewrite fmap_app.
  - intros n c. unfold after.
    run_with (add_observer_eq _ _ _ o H').
    erewrite create_jobset_eq by (eapply put_lookup; exact H'). cbn.
    unfold notified. cbn. by rewrite !fmap_app, <- !app_assoc.
Qed.

(** On the stopped handle of [stopped_world], observer 9 is registered
    after observer 7 and called after it. *)
Lemma add_observer_registers_last_witness :
  ∃ w', TaskHandle.add_observer 0 (Obs 9 []) stopped_world = (Return tt, w') ∧
        calls w' = calls stopped_world ∧
        calls (after (TaskHandle.create_jobset 0 "Phase2" None) w') =
          calls stopped_world ++ [7; 9]%nat.
Proof.
  destruct (add_observer_registers_last stopped_world 0
              (mkTaskHandle "Task" true true [1%nat] [Obs 7 []]) (Obs 9 [])
              eq_refl) as (w' & Ha & Hc & _ & _ & Hn & _).
  exists w'. split; [exact Ha |]. split; [exact Hc |].
  exact (Hn "Phase2" None).
Defined.

(** X6. A notification pass works on the list of observers as it is when
    the pass begins: it returns normally and calls those observers, each
    once and in order, even when they register further observers while it
    runs; those are appended to the list and called by the next pass, after
    the earlier ones. *)
Theorem inform_observers_snapshot w h th :
  heap w !! h = Some (OTaskHandle th) →
  let w1 := after (TaskHandle._inform_observers h) w in
  let w2 := after (TaskHandle._inform_observers h) w1 in
  result (TaskHandle._inform_observers h) w = Return tt ∧
  calls w1 = calls w ++ notified th ∧
  heap w1 !! h = Some (OTaskHandle (informed th)) ∧
  observers (informed th) = observers th ++ (observers th ≫= obs_registers) ∧
  calls w2 =
    calls w1 ++ notified th ++ (obs_id <$> (observers th ≫= obs_registers)).
Proof.
  intros H w1 w2. pose proof (inform_observers_eq _ _ _ H) as E.
  assert (heap w1 !! h = Some (OTaskHandle (informed th))) as H1.
  { unfold w1, after. rewrite E. cbn. apply list_lookup_insert_eq.
    by eapply lookup_lt_Some. }
  split; [unfold result; by rewrite E |].
  split; [unfold w1, after; by rewrite E |].
  split; [exact H1 |]. split; [reflexivity |].
  unfold w2, after. rewrite (inform_observers_eq _ _ _ H1). cbn.
  unfold notified. cbn. by rewrite fmap_app.
Qed.

(** In [registering_world] observer 1 registers observer 2 whenever it is
    called: the first pass calls 1 alone, the second calls 1 and then 2. *)
Lemma inform_observers_snapshot_witness :
  let w1 := after (TaskHandle._inform_observers 0) registering_world in
  let w2 := after (TaskHandle._inform_observers 0) w1 in
  calls w1 = [1%nat] ∧ calls w2 = [1; 1; 2]%nat.
Proof.
  destruct (inform_observers_snapshot registering_world 0
              (mkTaskHandle "Task" true false [] [Obs 1 [Obs 2 []]]) eq_refl)
    as (_ & H1 & _ & _ & H2).
  split; [exact H1 | exact H2].
Defined.

(** ** Job sets and the object their handle refers to *)

Lemma dispatch_is_stopped_null w r :
  heap w !! r = Some ONullTaskHandle →
  Dispatch.is_stopped r w = (Return false, w).
Proof.
  intros H. unfold Dispatch.is_stopped.
  by rewrite (virtual_NullTaskHandle _ _ _ _ _ _ H).
Qed.

Lemma dispatch_inform_observers_null w r :
  heap w !! r = Some ONullTaskHandle →
  Dispatch._inform_observers r w = (Return tt, w).
Proof.
  intros H. unfold Dispatch._inform_observers.
  by rewrite (virtual_NullTaskHandle _ _ _ _ _ _ H).
Qed.






(** X9. A job set constructed on a [NullTaskHandle] is never interrupted
    and notifies no one: [check_status] returns normally and changes
    nothing; [started_job] records the job name, [finished_job] adds one to
    [done] and clears the job name, and neither changes anything else. *)
Theorem job_set_on_null_handle w j js :
  heap w !! j = Some (OJobSet js) →
  heap w !! handle js = Some ONullTaskHandle →
  JobSet.check_status j w = (Return tt, w) ∧
  (∀ n, JobSet.started_job j n w =
        (Return tt, put j (OJobSet (set_job_name (Some n) js)) w)) ∧
  JobSet.finished_job j w =
    (Return tt,
     put j (OJobSet (set_job_name None (set_done (done js + 1) js))) w).
Proof.
  intros Hj Hh.
  assert (j ≠ handle js) as Hne by (intros E; rewrite <- E in Hh; congruence).
  assert (JobSet.check_status j w = (Return tt, w)) as Hc.
  { unfold JobSet.check_status. run_with (self_JobSet_eq _ _ _ Hj).
    by run_with (dispatch_is_stopped_null _ _ Hh). }
  split; [exact Hc |]. split.
  - intros n. unfold JobSet.started_job. run_with Hc.
    run_with (setattr_JobSet_eq _ _ _ (set_job_name (Some n)) Hj).
    run_with (self_JobSet_eq _ _ _
                (put_lookup _ _ _ (OJobSet (set_job_name (Some n) js)) Hj)).
    apply dispatch_inform_observers_null. by rewrite put_lookup_ne.
  - unfold JobSet.finished_job. run_with Hc.
    run_with (setattr_JobSet_eq _ _ _ (λ js, set_done (done js + 1) js) Hj).
    run_with (self_JobSet_eq _ _ _
                (put_lookup _ _ _ (OJobSet (set_done (done js + 1) js)) Hj)).
    erewrite bind_Return;
      [| apply dispatch_inform_observers_null; by rewrite put_lookup_ne].
    erewrite setattr_JobSet_eq by (eapply put_lookup; exact Hj).
    by rewrite put_put.
Qed.

(** In [null_bound_world] a job is finished on job set 1 and the call log
    stays empty. *)
Lemma job_set_on_null_handle_witness :
  JobSet.finished_job 1 null_bound_world =
    (Return tt,
     mkWorld [ONullTaskHandle; OJobSet (mkJobSet 0 "JobSet" (Some 2) 1 None)] []).
Proof.
  exact (proj2 (proj2 (job_set_on_null_handle null_bound_world 1
                         (mkJobSet 0 "JobSet" (Some 2) 0 None)
                         eq_refl eq_refl))).
Defined.

(** ** Counting jobs *)

Lemma finished_job_step w j js th :
  heap w !! j = Some (OJobSet js) →
  heap w !! handle js = Some (OTaskHandle th) →
  stopped th = false →
  let w' := after (exec (FinishedJob j)) w in
  heap w' !! j = Some (OJobSet (set_job_name None (set_done (done js + 1) js))) ∧
  heap w' !! handle js = Some (OTaskHandle (informed th)).
Proof.
  intros Hj Hh Hs w'.
  assert (j ≠ handle js) as Hne by (intros E; rewrite <- E in Hh; congruence).
  unfold w', after. cbn [exec]. rewrite (virtual_JobSet _ _ _ _ _ _ _ Hj).
  rewrite (finished_job_eq _ _ _ _ Hj Hh), Hs. cbn. split.
  - apply list_lookup_insert_eq. rewrite length_insert.
    by eapply lookup_lt_Some.
  - rewrite list_lookup_insert_ne by done.
    apply list_lookup_insert_eq. by eapply lookup_lt_Some.
Qed.

Lemma run_cons op ops w : run (op :: ops) w = run ops (after (exec op) w).
Proof. reflexivity. Qed.

(** X11. Increments add up, whatever the state of the handle: on a job set
    whose count is a number [c], [k] calls of [increment] in a row leave the
    count at [c + k] and change nothing else, neither another field, nor
    another object, nor the call log. *)
Theorem increments_counted k : ∀ w j js c,
  heap w !! j = Some (OJobSet js) →
  count js = Some c →
  run (replicate k (Increment j)) w =
    put j (OJobSet (set_count (Some (c + Z.of_nat k)) js)) w.
Proof.
  induction k as [|k IH]; intros w j js c Hj C.
  - cbn. rewrite Z.add_0_r, <- C.
    replace (set_count (count js) js) with js by (by destruct js).
    by rewrite put_id.
  - cbn [replicate]. rewrite run_cons.
    assert (after (exec (Increment j)) w =
              put j (OJobSet (set_count (Some (c + 1)) js)) w) as ->.
    { unfold after. cbn [exec]. rewrite (virtual_JobSet _ _ _ _ _ _ _ Hj).
      by rewrite (increment_eq _ _ _ Hj), C. }
    rewrite (IH _ j (set_count (Some (c + 1)) js) (c + 1));
      [| by eapply put_lookup | done].
    rewrite put_put. unfold set_count. cbn [handle name count done job_name].
    by replace (c + 1 + Z.of_nat k) with (c + Z.of_nat (Datatypes.S k)) by lia.
Qed.

(** In [zero_count_world] the count starts at 0 and one job is done: the
    percentage is [None]; two increments later it is 50. *)
Lemma increments_counted_witness :
  JobSet.get_percent_done 1 zero_count_world = (Return None, zero_count_world) ∧
  let w' := run [Increment 1; Increment 1] zero_count_world in
  JobSet.get_percent_done 1 w' = (Return (Some 50), w').
Proof.
  split; [reflexivity |].
  intros w'. unfold w'.
  pose proof (increments_counted 2 zero_count_world 1
                (mkJobSet 0 "JobSet" (Some 0) 1 None) 0 eq_refl eq_refl) as E.
  cbn [replicate] in E. rewrite E. reflexivity.
Defined.

Lemma percent_antitone d c1 c2 :
  0 ≤ d → 0 < c1 → c1 ≤ c2 →
  Z.min (d * 100 / c2) 100 ≤ Z.min (d * 100 / c1) 100.
Proof.
  intros Hd Hc Hle. apply Z.min_le_compat_r.
  apply Z.div_le_compat_l; lia.
Qed.

(** X12. Finding more work does not raise the percentage: in every world a
    client can build, on a job set whose count is positive, the percentage
    after [increment()] is at most the percentage before. *)
Theorem increment_lowers_percent w j js c :
  reachable w →
  heap w !! j = Some (OJobSet js) →
  count js = Some c → 0 < c →
  ∃ p p' w',
    JobSet.get_percent_done j w = (Return (Some p), w) ∧
    JobSet.increment j w = (Return tt, w') ∧
    JobSet.get_percent_done j w' = (Return (Some p'), w') ∧
    p' ≤ p.
Proof.
  intros R Hj C Hc. pose proof (reachable_good _ R _ _ Hj) as Hd. cbn in Hd.
  exists (Z.min (done js * 100 / c) 100), (Z.min (done js * 100 / (c + 1)) 100).
  eexists. split; [| split; [| split]].
  - rewrite (get_percent_done_eq _ _ _ Hj), C.
    by assert ((0 <? c) = true) as -> by (by apply Z.ltb_lt).
  - by rewrite (increment_eq _ _ _ Hj), C.
  - erewrite get_percent_done_eq by (eapply put_lookup; exact Hj). cbn.
    by assert ((0 <? c + 1) = true) as -> by (apply Z.ltb_lt; lia).
  - apply percent_antitone; lia.
Qed.

(** In [phase1_world] the percentage of job set 1 falls from 50 to 33. *)
Lemma increment_lowers_percent_witness :
  ∃ p p' w',
    JobSet.get_percent_done 1 phase1_world = (Return (Some p), phase1_world) ∧
    JobSet.increment 1 phase1_world = (Return tt, w') ∧
    JobSet.get_percent_done 1 w' = (Return (Some p'), w') ∧
    p' ≤ p.
Proof.
  assert (reachable phase1_world) as R by (eexists; reflexivity).
  exact (increment_lowers_percent phase1_world 1
           (mkJobSet 0 "Phase1" (Some 2) 1 None) 2 R eq_refl eq_refl eq_refl).
Defined.

(** ** The current job and the names *)


Lemma get_name_eq w j js :
  heap w !! j = Some (OJobSet js) → JobSet.get_name j w = (Return (name js), w).
Proof.
  intros Hj. unfold JobSet.get_name. by run_with (self_JobSet_eq _ _ _ Hj).
Qed.



(** X14. The job set that [create_jobset(name, count)] returns keeps that
    name and that handle, and stays in the handle's list, whatever calls
    follow: [get_name()] returns [name], and [get_jobsets()] of the handle
    returns a list that contains it. *)
Theorem created_job_set_stays w h th n c ops :
  heap w !! h = Some (OTaskHandle th) →
  let j := length (heap w) in
  let w' := run ops (after (TaskHandle.create_jobset h n c) w) in
  result (TaskHandle.create_jobset h n c) w = Return j ∧
  JobSet.get_name j w' = (Return n, w') ∧
  (∃ js, heap w' !! j = Some (OJobSet js) ∧ handle js = h) ∧
  ∃ l, TaskHandle.get_jobsets h w' = (Return l, w') ∧ j ∈ l.
Proof.
  intros H j w'. pose proof (create_jobset_eq _ _ _ n c H) as E.
  pose proof (lookup_lt_Some _ _ _ H) as Hlt.
  set (w1 := after (TaskHandle.create_jobset h n c) w) in *.
  assert (heap w1 !! j = Some (OJobSet (mkJobSet h n c 0 None))) as Hj1.
  { unfold w1, after. rewrite E. cbn.
    rewrite list_lookup_insert_ne by (subst j; lia). by apply list_lookup_middle. }
  assert (heap w1 !! h =
            Some (OTaskHandle (informed (set_job_sets (job_sets th ++ [j]) th))))
    as Hh1.
  { unfold w1, after. rewrite E. cbn. apply list_lookup_insert_eq.
    rewrite length_app. lia. }
  destruct (evolves_run ops w1) as [O _ _]. fold w' in O.
  destruct (O _ _ Hj1) as ([|js'| |] & Hj' & HSj); try done.
  destruct (O _ _ Hh1) as ([th'| | |] & Hh' & HSh); try done.
  cbn in HSj, HSh. destruct HSj as (Hhandle & Hname & _).
  destruct HSh as (_ & _ & _ & _ & Hpre & _).
  split; [unfold result; by rewrite E |]. split; [| split].
  - by rewrite (get_name_eq _ _ _ Hj'), Hname.
  - by exists js'.
  - exists (job_sets th'). split.
    + unfold TaskHandle.get_jobsets. by run_with (self_TaskHandle_eq _ _ _ Hh').
    + destruct Hpre as [k ->]. apply elem_of_app. left.
      apply elem_of_app. right. by apply list_elem_of_singleton.
Qed.

(** From [stopped_world]: a job set "Phase2" is created at address 2 and,
    an increment and another creation later, is named and listed still. *)
Lemma created_job_set_stays_witness :
  let w' := run [Increment 2; CreateJobset 0 "Phase3" None]
              (after (TaskHandle.create_jobset 0 "Phase2" (Some 5)) stopped_world) in
  JobSet.get_name 2 w' = (Return "Phase2", w') ∧
  ∃ l, TaskHandle.get_jobsets 0 w' = (Return l, w') ∧ 2%nat ∈ l.
Proof.
  destruct (created_job_set_stays stopped_world 0
              (mkTaskHandle "Task" true true [1%nat] [Obs 7 []])
              "Phase2" (Some 5) [Increment 2; CreateJobset 0 "Phase3" None]
              eq_refl) as (_ & Hn & _ & Hl).
  split; [exact Hn | exact Hl].
Defined.

(** ** What reading costs *)

Lemma readonly_reader {A B} (m : M A) (f : A → B) w :
  after m w = w → after (x ← m; mret (f x)) w = w.
Proof. intros H. apply readonly_bind; [done | reflexivity]. Qed.

(** X15. Polling and reading change nothing, on any receiver and with any
    outcome: after [check_status], [is_stopped], [get_percent_done],
    [current_jobset], [get_jobsets], [get_active_job_name] or [get_name]
    the heap and the call log are what they were. *)
Theorem reading_changes_nothing w r :
  after (JobSet.check_status r) w = w ∧
  after (TaskHandle.is_stopped r) w = w ∧
  after (JobSet.get_percent_done r) w = w ∧
  after (TaskHandle.current_jobset r) w = w ∧
  after (TaskHandle.get_jobsets r) w = w ∧
  after (JobSet.get_active_job_name r) w = w ∧
  after (JobSet.get_name r) w = w.
Proof.
  split; [apply check_status_world |].
  split; [apply readonly_reader, self_TaskHandle_world |].
  split.
  { apply readonly_bind; [apply self_JobSet_world | intros js].
    destruct (count js) as [c|]; [destruct (0 <? c) |]; reflexivity. }
  split; [apply readonly_reader, self_TaskHandle_world |].
  split; [apply readonly_reader, self_TaskHandle_world |].
  split; apply readonly_reader, self_JobSet_world.
Qed.

(** ** Job sets constructed directly *)

(** X17. Constructing a [JobSet] directly on a handle does not register
    it: the new job set has done no job, has no current job and follows the
    handle's [stopped] flag, but the handle's [get_jobsets()] and
    [current_jobset()] return what they returned before, a list the new job
    set is not in, and no observer is called. *)
Theorem constructed_job_set_unlisted w h th n c :
  reachable w →
  heap w !! h = Some (OTaskHandle th) →
  let j := length (heap w) in
  let w' := after (Construct.JobSet h n c) w in
  Construct.JobSet h n c w = (Return j, w') ∧
  heap w' !! j = Some (OJobSet (mkJobSet h n c 0 None)) ∧
  TaskHandle.get_jobsets h w' = (Return (job_sets th), w') ∧
  TaskHandle.current_jobset h w' = (Return (last (job_sets th)), w') ∧
  (j ∉ job_sets th) ∧
  calls w' = calls w ∧
  JobSet.check_status j w' =
    (if stopped th then Raise InterruptedTaskError else Return tt, w').
Proof.
  intros R H j w'.
  assert (heap w' !! h = Some (OTaskHandle th)) as H'
    by (by apply lookup_app_l_Some).
  assert (heap w' !! j = Some (OJobSet (mkJobSet h n c 0 None))) as Hj
    by (by apply list_lookup_middle).
  split; [reflexivity |]. split; [exact Hj |]. split; [| split; [| split; [| split]]].
  - unfold TaskHandle.get_jobsets. by run_with (self_TaskHandle_eq _ _ _ H').
  - unfold TaskHandle.current_jobset. by run_with (self_TaskHandle_eq _ _ _ H').
  - intros Hin. destruct (reachable_owned _ R _ _ H) as [_ Hown].
    destruct (Hown _ Hin) as (js & Hjs & _).
    apply lookup_lt_Some in Hjs. subst j. lia.
  - reflexivity.
  - by rewrite (check_status_eq _ _ _ _ Hj H').
Qed.

(** In [stopped_world] a job set constructed directly on handle 0 lands at
    address 2, is interrupted like the others, and is not listed. *)
Lemma constructed_job_set_unlisted_witness :
  let w' := after (Construct.JobSet 0 "loose" None) stopped_world in
  TaskHandle.get_jobsets 0 w' = (Return [1%nat], w') ∧
  JobSet.check_status 2 w' = (Raise InterruptedTaskError, w').
Proof.
  assert (reachable stopped_world) as R.
  { exists [NewTaskHandle "Task" true; AddObserver 0 (Obs 7 []);
            CreateJobset 0 "Phase1" (Some 2); StartedJob 1 "a";
            FinishedJob 1; Stop 0]. reflexivity. }
  destruct (constructed_job_set_unlisted stopped_world 0
              (mkTaskHandle "Task" true true [1%nat] [Obs 7 []])
              "loose" None R eq_refl) as (_ & _ & Hl & _ & _ & _ & Hc).
  split; [exact Hl | exact Hc].
Defined.

(** * Observers as arbitrary callables *)

(** With [plain_body] the methods of [AnyObserver] are those of [TaskHandle]
    and [JobSet]. *)
Lemma plain_body_methods :
  AnyObserver._inform_observers plain_body = TaskHandle._inform_observers ∧
  AnyObserver.stop plain_body = TaskHandle.stop ∧
  AnyObserver.create_jobset plain_body = TaskHandle.create_jobset ∧
  AnyObserver.started_job plain_body = JobSet.started_job ∧
  AnyObserver.finished_job plain_body = JobSet.finished_job.
Proof. repeat split. Qed.

Lemma bind_after {A B} (m : M A) (f : A → M B) w a :
  result m w = Return a →
  after (m ≫= f) w = after (f a) (after m w) ∧
  result (m ≫= f) w = result (f a) (after m w).
Proof.
  unfold result, after, mbind, M_bind.
  destruct (m w) as [[a'|e] w']; cbn; [intros [= ->]; done | done].
Qed.

Lemma any_for_each_calls body h os : ∀ w,
  silent body →
  result (for_each os (AnyObserver.call_observer body h)) w = Return tt ∧
  calls (after (for_each os (AnyObserver.call_observer body h)) w) =
    calls w ++ (obs_id <$> os).
Proof.
  induction os as [|o os IH]; intros w Hb; cbn [for_each].
  - cbn. by rewrite app_nil_r.
  - assert (result (AnyObserver.call_observer body h o) w = Return tt ∧
            calls (after (AnyObserver.call_observer body h o) w) =
              calls w ++ [obs_id o]) as [Hr Hc].
    { unfold AnyObserver.call_observer.
      destruct (bind_after (log_call (obs_id o)) (λ _, body h o) w tt eq_refl)
        as [-> ->].
      destruct (Hb h o (after (log_call (obs_id o)) w)) as [Hr Hc].
      split; [exact Hr | by rewrite Hc]. }
    destruct (bind_after _ (λ _, for_each os (AnyObserver.call_observer body h))
                w tt Hr) as [-> ->].
    destruct (IH (after (AnyObserver.call_observer body h o) w) Hb) as [Hr' Hc'].
    split; [exact Hr' |]. rewrite Hc', Hc. cbn. by rewrite <- app_assoc.
Qed.

Lemma any_inform_calls body w h th :
  silent body →
  heap w !! h = Some (OTaskHandle th) →
  result (AnyObserver._inform_observers body h) w = Return tt ∧
  calls (after (AnyObserver._inform_observers body h) w) =
    calls w ++ notified th.
Proof.
  intros Hb H. unfold AnyObserver._inform_observers, result, after.
  run_with (self_TaskHandle_eq _ _ _ H).
  by apply any_for_each_calls.
Qed.

Lemma any_stop_guarded body w h th :
  heap w !! h = Some (OTaskHandle th) → interrupts th = false →
  AnyObserver.stop body h w = (Return tt, w).
Proof.
  intros H I. unfold AnyObserver.stop.
  run_with (self_TaskHandle_eq _ _ _ H). by rewrite I.
Qed.

Lemma any_stop_calls body w h th :
  silent body →
  heap w !! h = Some (OTaskHandle th) → interrupts th = true →
  result (AnyObserver.stop body h) w = Return tt ∧
  calls (after (AnyObserver.stop body h) w) = calls w ++ notified th.
Proof.
  intros Hb H I. unfold AnyObserver.stop, result, after.
  run_with (self_TaskHandle_eq _ _ _ H). rewrite I.
  run_with (setattr_TaskHandle_eq _ _ _ (set_stopped true) H).
  destruct (any_inform_calls body _ h (set_stopped true th) Hb
              (put_lookup _ _ _ (OTaskHandle (set_stopped true th)) H))
    as [Hr Hc].
  split; [exact Hr | exact Hc].
Qed.

Lemma any_create_jobset_calls body w h th n c :
  silent body →
  heap w !! h = Some (OTaskHandle th) →
  result (AnyObserver.create_jobset body h n c) w = Return (length (heap w)) ∧
  calls (after (AnyObserver.create_jobset body h n c) w) =
    calls w ++ notified th.
Proof.
  intros Hb H. unfold AnyObserver.create_jobset, result, after.
  erewrite bind_Return by reflexivity.
  assert (heap (mkWorld (heap w ++ [OJobSet (mkJobSet h n c 0 None)]) (calls w))
            !! h = Some (OTaskHandle th)) as H1
    by (cbn; by apply lookup_app_l_Some).
  run_with (setattr_TaskHandle_eq _ _ _
              (λ th, set_job_sets (job_sets th ++ [length (heap w)]) th) H1).
  destruct (any_inform_calls body _ h
              (set_job_sets (job_sets th ++ [length (heap w)]) th) Hb
              (put_lookup _ _ _ _ H1)) as [Hr Hc].
  destruct (bind_after _ (λ _, mret (length (heap w))) _ tt Hr) as [Ha Hres].
  unfold result, after in Ha, Hres. rewrite Ha, Hres. cbn. split; [done |].
  exact Hc.
Qed.

Lemma any_handle_inform_calls body w h th :
  silent body →
  heap w !! h = Some (OTaskHandle th) →
  result (AnyObserver.handle_inform_observers body h) w = Return tt ∧
  calls (after (AnyObserver.handle_inform_observers body h) w) =
    calls w ++ notified th.
Proof.
  intros Hb H. unfold AnyObserver.handle_inform_observers, result, after.
  rewrite (virtual_TaskHandle _ _ _ _ _ _ _ H). by apply any_inform_calls.
Qed.

Lemma any_started_job_stopped body w j js th n :
  heap w !! j = Some (OJobSet js) →
  heap w !! handle js = Some (OTaskHandle th) → stopped th = true →
  AnyObserver.started_job body j n w = (Raise InterruptedTaskError, w).
Proof.
  intros Hj Hh Hs. unfold AnyObserver.started_job.
  pose proof (check_status_eq _ _ _ _ Hj Hh) as Hc. rewrite Hs in Hc.
  by run_with Hc.
Qed.

Lemma any_finished_job_stopped body w j js th :
  heap w !! j = Some (OJobSet js) →
  heap w !! handle js = Some (OTaskHandle th) → stopped th = true →
  AnyObserver.finished_job body j w = (Raise InterruptedTaskError, w).
Proof.
  intros Hj Hh Hs. unfold AnyObserver.finished_job.
  pose proof (check_status_eq _ _ _ _ Hj Hh) as Hc. rewrite Hs in Hc.
  by run_with Hc.
Qed.

Lemma any_started_job_calls body w j js th n :
  silent body →
  heap w !! j = Some (OJobSet js) →
  heap w !! handle js = Some (OTaskHandle th) → stopped th = false →
  result (AnyObserver.started_job body j n) w = Return tt ∧
  calls (after (AnyObserver.started_job body j n) w) = calls w ++ notified th.
Proof.
  intros Hb Hj Hh Hs. unfold AnyObserver.started_job, result, after.
  assert (j ≠ handle js) as Hne by (intros E; rewrite <- E in Hh; congruence).
  pose proof (check_status_eq _ _ _ _ Hj Hh) as Hc. rewrite Hs in Hc.
  run_with Hc.
  run_with (setattr_JobSet_eq _ _ _ (set_job_name (Some n)) Hj).
  run_with (self_JobSet_eq _ _ _
              (put_lookup _ _ _ (OJobSet (set_job_name (Some n) js)) Hj)).
  cbn [handle set_job_name].
  destruct (any_handle_inform_calls body
              (put j (OJobSet (set_job_name (Some n) js)) w) (handle js) th Hb)
    as [Hr Hl]; [by rewrite put_lookup_ne |].
  split; [exact Hr | exact Hl].
Qed.

Lemma setattr_JobSet_calls j f w :
  calls (after (setattr_JobSet j f) w) = calls w.
Proof.
  unfold after, setattr_JobSet, self_JobSet, deref, store, mbind, M_bind.
  by destruct (heap w !! j) as [[]|].
Qed.

Lemma any_finished_job_calls body w j js th :
  silent body →
  heap w !! j = Some (OJobSet js) →
  heap w !! handle js = Some (OTaskHandle th) → stopped th = false →
  calls (after (AnyObserver.finished_job body j) w) = calls w ++ notified th.
Proof.
  intros Hb Hj Hh Hs. unfold AnyObserver.finished_job, after.
  assert (j ≠ handle js) as Hne by (intros E; rewrite <- E in Hh; congruence).
  pose proof (check_status_eq _ _ _ _ Hj Hh) as Hc. rewrite Hs in Hc.
  run_with Hc.
  run_with (setattr_JobSet_eq _ _ _ (λ js, set_done (done js + 1) js) Hj).
  run_with (self_JobSet_eq _ _ _
              (put_lookup _ _ _ (OJobSet (set_done (done js + 1) js)) Hj)).
  cbn [handle set_done].
  destruct (any_handle_inform_calls body
              (put j (OJobSet (set_done (done js + 1) js)) w) (handle js) th Hb)
    as [Hr Hl]; [by rewrite put_lookup_ne |].
  destruct (bind_after _ (λ _, setattr_JobSet j (set_job_name None)) _ tt Hr)
    as [Ha _].
  unfold after in Ha. rewrite Ha.
  change (calls (after (setattr_JobSet j (set_job_name None))
                   (after (AnyObserver.handle_inform_observers body (handle js))
                      (put j (OJobSet (set_done (done js + 1) js)) w))) =
          calls w ++ notified th).
  rewrite setattr_JobSet_calls. exact Hl.
Qed.

(** A third way in which C2, as stated, fails: an observer that calls
    [stop()] starts a pass inside the pass, so that one [create_jobset]
    has observers 1 and 2 called twice each. *)
Example reentrant_stop_calls :
  calls (after (AnyObserver.create_jobset (cancelling_body 2) 0 "JobSet" None)
           two_observers_world) = [1; 1; 2; 2]%nat ∧
  ¬ informs_all (AnyObserver.create_jobset (cancelling_body 2) 0 "JobSet" None)
      0 two_observers_world.
Proof.
  split; [reflexivity |].
  intros (th & H & C). vm_compute in H. injection H as <-.
  vm_compute in C. discriminate C.
Qed.

(** C2, amended.  Observers being callables that return normally and start
    no notification themselves: [create_jobset()] runs one full
    notification pass whatever the handle's flags; [stop()] runs one when
    the handle interrupts, stopped already or not; [started_job] and
    [finished_job] run one when their handle is not stopped.  A pass calls
    exactly the observers registered when the call is made, each once, in
    registration order.  Whatever the observers are, [stop()] on a handle
    that does not interrupt returns with nothing changed and no observer
    called, and [started_job] and [finished_job] on a stopped handle raise
    [InterruptedTaskError] with nothing changed and no observer called. *)
Theorem informs_all_unless_guarded body w h th :
  heap w !! h = Some (OTaskHandle th) →
  (silent body →
   ∀ n c, informs_all (AnyObserver.create_jobset body h n c) h w) ∧
  (silent body → interrupts th = true →
   informs_all (AnyObserver.stop body h) h w) ∧
  (interrupts th = false → AnyObserver.stop body h w = (Return tt, w)) ∧
  ∀ j js,
    heap w !! j = Some (OJobSet js) → handle js = h →
    (silent body → stopped th = false →
       (∀ n, informs_all (AnyObserver.started_job body j n) h w) ∧
       informs_all (AnyObserver.finished_job body j) h w) ∧
    (stopped th = true →
       (∀ n, AnyObserver.started_job body j n w =
             (Raise InterruptedTaskError, w)) ∧
       AnyObserver.finished_job body j w = (Raise InterruptedTaskError, w)).
Proof.
  intros H. split; [| split; [| split]].
  - intros Hb n c. exists th. split; [done |].
    by apply any_create_jobset_calls.
  - intros Hb I. exists th. split; [done |]. by apply any_stop_calls.
  - intros I. by apply (any_stop_guarded _ _ _ th).
  - intros j js Hj <-. split.
    + intros Hb Hs. split; [intros n |]; exists th; (split; [done |]).
      * by apply (any_started_job_calls _ _ _ js).
      * by apply (any_finished_job_calls _ _ _ js).
    + intros Hs. split; [intros n |].
      * by apply (any_started_job_stopped _ _ _ js th).
      * by apply (any_finished_job_stopped _ _ _ js th).
Qed.

Lemma watching_body_silent : silent watching_body.
Proof. intros self o w. by split. Qed.

(** In [phase1_world], with an observer that only watches: creating a job
    set, stopping, starting and finishing a job each call observer 7
    once. *)
Lemma informs_all_unless_guarded_witness :
  informs_all (AnyObserver.create_jobset watching_body 0 "Phase2" None)
    0 phase1_world ∧
  informs_all (AnyObserver.stop watching_body 0) 0 phase1_world ∧
  informs_all (AnyObserver.started_job watching_body 1 "b") 0 phase1_world ∧
  informs_all (AnyObserver.finished_job watching_body 1) 0 phase1_world.
Proof.
  pose proof (informs_all_unless_guarded watching_body phase1_world 0
                (mkTaskHandle "Task" true false [1%nat] [Obs 7 []]) eq_refl)
    as (Hc & Hs & _ & Hj).
  split; [exact (Hc watching_body_silent "Phase2" None) |].
  split; [exact (Hs watching_body_silent eq_refl) |].
  destruct (Hj 1%nat (mkJobSet 0 "Phase1" (Some 2) 1 None) eq_refl eq_refl)
    as [Hrun _].
  destruct (Hrun watching_body_silent eq_refl) as [Hst Hfi].
  split; [exact (Hst "b") | exact Hfi].
Defined.

(** ** The check and the notification *)

Lemma uninterrupted_any_inform body r :
  uninterrupted_body body →
  uninterrupted (AnyObserver._inform_observers body r).
Proof.
  intros Hb.
  apply uninterrupted_bind; [apply uninterrupted_self_TaskHandle | intros th].
  apply uninterrupted_for_each. intros o.
  apply uninterrupted_bind; [apply uninterrupted_log_call | intros _; apply Hb].
Qed.

Lemma uninterrupted_any_handle_inform body r :
  uninterrupted_body body →
  uninterrupted (AnyObserver.handle_inform_observers body r).
Proof.
  intros Hb. apply uninterrupted_virtual; try apply uninterrupted_no_method.
  - by apply uninterrupted_any_inform.
  - apply uninterrupted_ret.
Qed.

Lemma plain_body_uninterrupted : uninterrupted_body plain_body.
Proof.
  intros self o. apply uninterrupted_for_each. intros x.
  apply uninterrupted_add_observer.
Qed.

(** C6, as stated, fails: the observers run after the job name is set and
    after [done] is incremented, and what they raise goes through.  With an
    observer that raises [InterruptedTaskError], [finished_job] raises it
    with [done] gone from 1 to 2, and [started_job] with the job name
    set. *)
Lemma check_before_mutation_counterexample :
  result (AnyObserver.finished_job interrupting_body 1) phase1_world =
    Raise InterruptedTaskError ∧
  heap (after (AnyObserver.finished_job interrupting_body 1) phase1_world)
    !! 1%nat = Some (OJobSet (mkJobSet 0 "Phase1" (Some 2) 2 None)) ∧
  result (AnyObserver.started_job interrupting_body 1 "b") phase1_world =
    Raise InterruptedTaskError ∧
  heap (after (AnyObserver.started_job interrupting_body 1 "b") phase1_world)
    !! 1%nat = Some (OJobSet (mkJobSet 0 "Phase1" (Some 2) 1 (Some "b"))) ∧
  heap phase1_world !! 1%nat =
    Some (OJobSet (mkJobSet 0 "Phase1" (Some 2) 1 None)).
Proof. repeat split. Qed.

(** C6, amended.  [started_job] and [finished_job] check for cancellation
    before they change anything.  When the handle is stopped at the call,
    they raise [InterruptedTaskError] and the world, and with it [done] and
    [job_name], is as it was, whatever the observers are.  And when no
    observer raises [InterruptedTaskError], a call that raises it has left
    the world as it was. *)
Theorem check_precedes_mutation body w j :
  (∀ js th,
     heap w !! j = Some (OJobSet js) →
     heap w !! handle js = Some (OTaskHandle th) →
     stopped th = true →
     (∀ n, AnyObserver.started_job body j n w =
           (Raise InterruptedTaskError, w)) ∧
     AnyObserver.finished_job body j w = (Raise InterruptedTaskError, w)) ∧
  (uninterrupted_body body →
   (∀ n, result (AnyObserver.started_job body j n) w =
           Raise InterruptedTaskError →
         after (AnyObserver.started_job body j n) w = w) ∧
   (result (AnyObserver.finished_job body j) w = Raise InterruptedTaskError →
    after (AnyObserver.finished_job body j) w = w)).
Proof.
  split.
  - intros js th Hj Hh Hs. split; [intros n |].
    + by apply (any_started_job_stopped _ _ _ js th).
    + by apply (any_finished_job_stopped _ _ _ js th).
  - intros Hb. split; [intros n |]; apply interrupted_at_check.
    + apply uninterrupted_bind; [apply uninterrupted_setattr_JobSet | intros _].
      apply uninterrupted_bind; [apply uninterrupted_self_JobSet | intros js].
      by apply uninterrupted_any_handle_inform.
    + apply uninterrupted_bind; [apply uninterrupted_setattr_JobSet | intros _].
      apply uninterrupted_bind; [apply uninterrupted_self_JobSet | intros js].
      apply uninterrupted_bind; [by apply uninterrupted_any_handle_inform |].
      intros _. apply uninterrupted_setattr_JobSet.
Qed.

(** The scenario of the specification: with one job of two done and the
    handle stopped, [started_job("b")] and [finished_job()] raise, also
    when the observer is one that raises, and [done] is still 1. *)
Lemma check_precedes_mutation_witness :
  AnyObserver.started_job interrupting_body 1 "b" stopped_world =
    (Raise InterruptedTaskError, stopped_world) ∧
  AnyObserver.finished_job interrupting_body 1 stopped_world =
    (Raise InterruptedTaskError, stopped_world) ∧
  after (JobSet.started_job 1 "b") stopped_world = stopped_world ∧
  after (JobSet.finished_job 1) stopped_world = stopped_world ∧
  heap stopped_world !! 1%nat =
    Some (OJobSet (mkJobSet 0 "Phase1" (Some 2) 1 None)).
Proof.
  destruct (proj1 (check_precedes_mutation interrupting_body stopped_world 1)
              (mkJobSet 0 "Phase1" (Some 2) 1 None)
              (mkTaskHandle "Task" true true [1%nat] [Obs 7 []])
              eq_refl eq_refl eq_refl) as [Hs Hf].
  destruct (proj2 (check_precedes_mutation plain_body stopped_world 1)
              plain_body_uninterrupted) as [Hs' Hf'].
  split; [exact (Hs "b") |]. split; [exact Hf |].
  split; [exact (Hs' "b" eq_refl) |]. split; [exact (Hf' eq_refl) | reflexivity].
Defined.

(** ** Where an exception of a handle method comes from *)

Lemma returning_for_each body h os : ∀ w,
  returning body →
  result (for_each os (AnyObserver.call_observer body h)) w = Return tt.
Proof.
  induction os as [|o os IH]; intros w Hb; cbn [for_each]; [done |].
  assert (result (AnyObserver.call_observer body h o) w = Return tt) as Hr.
  { unfold AnyObserver.call_observer.
    destruct (bind_after (log_call (obs_id o)) (λ _, body h o) w tt eq_refl)
      as [_ ->]. apply Hb. }
  destruct (bind_after _ (λ _, for_each os (AnyObserver.call_observer body h))
              w tt Hr) as [_ ->].
  by apply IH.
Qed.

Lemma returning_inform body w h th :
  returning body →
  heap w !! h = Some (OTaskHandle th) →
  result (AnyObserver._inform_observers body h) w = Return tt.
Proof.
  intros Hb H. unfold AnyObserver._inform_observers, result.
  run_with (self_TaskHandle_eq _ _ _ H). by apply returning_for_each.
Qed.

(** X16. An exception out of a [TaskHandle] method is an observer's: on a
    handle, stopped or not, [add_observer], [is_stopped], [get_jobsets] and
    [current_jobset] return normally, and so do [stop] and [create_jobset]
    whenever every observer returns normally. *)
Theorem task_handle_raises_for_observers_only body w h th :
  heap w !! h = Some (OTaskHandle th) →
  (∀ o, result (TaskHandle.add_observer h o) w = Return tt) ∧
  result (TaskHandle.is_stopped h) w = Return (stopped th) ∧
  result (TaskHandle.get_jobsets h) w = Return (job_sets th) ∧
  result (TaskHandle.current_jobset h) w = Return (last (job_sets th)) ∧
  (returning body →
   result (AnyObserver.stop body h) w = Return tt ∧
   ∀ n c, result (AnyObserver.create_jobset body h n c) w =
          Return (length (heap w))).
Proof.
  intros H. split; [| split; [| split; [| split]]].
  - intros o. unfold result. by rewrite (add_observer_eq _ _ _ o H).
  - unfold result. by rewrite (is_stopped_eq _ _ _ H).
  - unfold result, TaskHandle.get_jobsets.
    by run_with (self_TaskHandle_eq _ _ _ H).
  - unfold result, TaskHandle.current_jobset.
    by run_with (self_TaskHandle_eq _ _ _ H).
  - intros Hb. split.
    + unfold result, AnyObserver.stop.
      run_with (self_TaskHandle_eq _ _ _ H).
      destruct (interrupts th); [| done].
      run_with (setattr_TaskHandle_eq _ _ _ (set_stopped true) H).
      apply (returning_inform body _ h (set_stopped true th) Hb).
      by eapply put_lookup.
    + intros n c. unfold result, AnyObserver.create_jobset.
      erewrite bind_Return by reflexivity.
      assert (heap (mkWorld (heap w ++ [OJobSet (mkJobSet h n c 0 None)])
                      (calls w)) !! h = Some (OTaskHandle th)) as H1
        by (cbn; by apply lookup_app_l_Some).
      run_with (setattr_TaskHandle_eq _ _ _
                  (λ th, set_job_sets (job_sets th ++ [length (heap w)]) th) H1).
      pose proof (returning_inform body _ h _ Hb (put_lookup _ _ _
                    (OTaskHandle (set_job_sets (job_sets th ++ [length (heap w)]) th))
                    H1)) as Hr.
      destruct (bind_after _ (λ _, mret (length (heap w))) _ tt Hr) as [_ Hres].
      unfold result in Hres. by rewrite Hres.
Qed.

(** On the stopped handle of [stopped_world], with an observer that only
    watches, [stop()] and [create_jobset()] return as on any other. *)
Lemma task_handle_raises_for_observers_only_witness :
  result (AnyObserver.stop watching_body 0) stopped_world = Return tt ∧
  result (AnyObserver.create_jobset watching_body 0 "Phase2" None) stopped_world =
    Return 2%nat ∧
  result (TaskHandle.is_stopped 0) stopped_world = Return true.
Proof.
  destruct (task_handle_raises_for_observers_only watching_body stopped_world 0
              (mkTaskHandle "Task" true true [1%nat] [Obs 7 []]) eq_refl)
    as (_ & Hi & _ & _ & Hb).
  destruct (Hb (λ _ _ _, eq_refl)) as [Hs Hc].
  split; [exact Hs |]. split; [exact (Hc "Phase2" None) | exact Hi].
Defined.

(** ** Counting finished jobs *)

Lemma bystander_for_each body h os : ∀ w,
  bystander body →
  let w' := after (for_each os (AnyObserver.call_observer body h)) w in
  result (for_each os (AnyObserver.call_observer body h)) w = Return tt ∧
  (∀ j js, heap w !! j = Some (OJobSet js) → heap w' !! j = Some (OJobSet js)) ∧
  (∀ r th, heap w !! r = Some (OTaskHandle th) →
     ∃ th', heap w' !! r = Some (OTaskHandle th') ∧ stopped th' = stopped th).
Proof.
  induction os as [|o os IH]; intros w Hb; cbn [for_each].
  - split; [done |]. split; [done |]. intros r th H. by exists th.
  - set (w0 := after (log_call (obs_id o)) w).
    destruct (Hb h o w0) as (Hr & Hjs & Hth).
    assert (result (AnyObserver.call_observer body h o) w = Return tt ∧
            after (AnyObserver.call_observer body h o) w = after (body h o) w0)
      as [Hr1 Ha1].
    { unfold AnyObserver.call_observer.
      destruct (bind_after (log_call (obs_id o)) (λ _, body h o) w tt eq_refl)
        as [-> ->]. by split. }
    destruct (bind_after _ (λ _, for_each os (AnyObserver.call_observer body h))
                w tt Hr1) as [-> ->].
    rewrite Ha1.
    destruct (IH (after (body h o) w0) Hb) as (Hr' & Hjs' & Hth').
    split; [exact Hr' |]. split.
    + intros j js H. apply Hjs', Hjs. exact H.
    + intros r th H. destruct (Hth r th H) as (th1 & H1 & S1).
      destruct (Hth' r th1 H1) as (th2 & H2 & S2).
      exists th2. split; [exact H2 | congruence].
Qed.

Lemma bystander_finished_job body w j js th :
  bystander body →
  heap w !! j = Some (OJobSet js) →
  heap w !! handle js = Some (OTaskHandle th) →
  stopped th = false →
  ∃ w1 th1,
    AnyObserver.finished_job body j w = (Return tt, w1) ∧
    heap w1 !! j =
      Some (OJobSet (set_job_name None (set_done (done js + 1) js))) ∧
    heap w1 !! handle js = Some (OTaskHandle th1) ∧
    stopped th1 = false.
Proof.
  intros Hb Hj Hh Hs.
  assert (j ≠ handle js) as Hne by (intros E; rewrite <- E in Hh; congruence).
  pose proof (check_status_eq _ _ _ _ Hj Hh) as Hc. rewrite Hs in Hc.
  set (w1 := put j (OJobSet (set_done (done js + 1) js)) w).
  assert (heap w1 !! j = Some (OJobSet (set_done (done js + 1) js))) as Hj1
    by (by eapply put_lookup).
  assert (heap w1 !! handle js = Some (OTaskHandle th)) as Hh1
    by (unfold w1; by rewrite put_lookup_ne).
  destruct (bystander_for_each body (handle js) (observers th) w1 Hb)
    as (Hr & Hjs & Hth).
  set (w2 := after (for_each (observers th)
                      (AnyObserver.call_observer body (handle js))) w1) in *.
  assert (AnyObserver.handle_inform_observers body (handle js) w1 =
            (Return tt, w2)) as Hi.
  { unfold AnyObserver.handle_inform_observers.
    rewrite (virtual_TaskHandle _ _ _ _ _ _ _ Hh1).
    unfold AnyObserver._inform_observers.
    run_with (self_TaskHandle_eq _ _ _ Hh1).
    unfold result in Hr. unfold w2, after.
    destruct (for_each (observers th)
                (AnyObserver.call_observer body (handle js)) w1) as [[[]|] ?];
      cbn in *; congruence. }
  pose proof (Hjs _ _ Hj1) as Hj2.
  destruct (Hth _ _ Hh1) as (th2 & Hh2 & S2).
  exists (put j (OJobSet (set_job_name None (set_done (done js + 1) js))) w2), th2.
  split; [| split; [by eapply put_lookup | split; [| congruence]]].
  - unfold AnyObserver.finished_job. run_with Hc.
    run_with (setattr_JobSet_eq _ _ _ (λ js, set_done (done js + 1) js) Hj).
    fold w1. run_with (self_JobSet_eq _ _ _ Hj1). cbn [handle set_done].
    run_with Hi. by rewrite (setattr_JobSet_eq _ _ _ (set_job_name None) Hj2).
  - by rewrite put_lookup_ne.
Qed.

(** X10. [done] counts the finished jobs.  With observers that return
    normally and leave the job sets and the [stopped] flags alone, on a job
    set whose handle is not stopped, [k] calls of [finished_job] made one
    after the other all return normally and leave [done] greater by [k] and
    the count as it was, with no current job once one call has been made,
    so that the percentage is that of [done + k]. *)
Theorem finished_jobs_counted body k : ∀ w j js th,
  bystander body →
  heap w !! j = Some (OJobSet js) →
  heap w !! handle js = Some (OTaskHandle th) →
  stopped th = false →
  ∃ w' js',
    for_each (replicate k tt) (λ _, AnyObserver.finished_job body j) w =
      (Return tt, w') ∧
    heap w' !! j = Some (OJobSet js') ∧
    done js' = done js + Z.of_nat k ∧
    count js' = count js ∧
    job_name js' = match k with O => job_name js | _ => None end ∧
    ∀ c, count js = Some c → 0 < c →
      JobSet.get_percent_done j w' =
        (Return (Some (Z.min ((done js + Z.of_nat k) * 100 / c) 100)), w').
Proof.
  induction k as [|k IH]; intros w j js th Hb Hj Hh Hs.
  - exists w, js. rewrite Z.add_0_r.
    split; [done |]. split; [done |]. split; [done |]. split; [done |].
    split; [done |].
    intros c C Hc. rewrite (get_percent_done_eq _ _ _ Hj), C.
    by assert ((0 <? c) = true) as -> by (by apply Z.ltb_lt).
  - destruct (bystander_finished_job body _ _ _ _ Hb Hj Hh Hs)
      as (w1 & th1 & Hf & Hj1 & Hh1 & Hs1).
    destruct (IH w1 j _ th1 Hb Hj1 Hh1 Hs1)
      as (w' & js' & Hrun & Hj' & Hd & Hc & Hn & Hp).
    exists w', js'. cbn in Hd, Hc, Hn.
    split; [| split; [exact Hj' | split; [lia | split; [done | split]]]].
    + cbn [replicate for_each]. by run_with Hf.
    + by destruct k.
    + intros c C Hpos. specialize (Hp c C Hpos). cbn in Hp.
      replace (done js + Z.of_nat (Datatypes.S k))
        with (done js + 1 + Z.of_nat k) by lia.
      exact Hp.
Qed.

Lemma watching_body_bystander : bystander watching_body.
Proof.
  intros self o w. split; [done |]. split; [done |].
  intros h th H. by exists th.
Qed.

(** The scenario of [phase1_world] carried on with an observer that only
    watches: one more finished job brings job set 1 from 50 to 100 per
    cent. *)
Lemma finished_jobs_counted_witness :
  ∃ w', for_each [tt] (λ _, AnyObserver.finished_job watching_body 1)
          phase1_world = (Return tt, w') ∧
        JobSet.get_percent_done 1 w' = (Return (Some 100), w').
Proof.
  destruct (finished_jobs_counted watching_body 1 phase1_world 1
              (mkJobSet 0 "Phase1" (Some 2) 1 None)
              (mkTaskHandle "Task" true false [1%nat] [Obs 7 []])
              watching_body_bystander eq_refl eq_refl eq_refl)
    as (w' & js' & Hrun & _ & _ & _ & _ & Hp).
  exists w'. split; [exact Hrun | exact (Hp 2 eq_refl eq_refl)].
Defined.
